(** * tio: the selector core, embedded and verified

    A shallow embedding of the readiness library's core: the descriptor
    handle ([fd_guard]), [token], [interest], the event view and event
    batch, the epoll selector, [registry], [poll], the waker and the
    [source] concept with the wrappers that are meant to satisfy it.

    The kernel is the environment.  Every system call the C++ code makes
    is a constructor of [Sys.syscall]; a kernel is any transition function
    answering such calls, and the program state records [errno] and the
    trace of calls made, so that statements can speak about what was
    handed to the kernel. *)

From Stdlib Require Import ZArith Lia Bool List String.
From stdpp Require Import base tactics option list gmap strings.

Local Open Scope Z_scope.

(** ** Machine integers *)

Module Int.

(** [static_cast<int>(x)]: the value of [x] modulo 2^32, read as a
    two's-complement 32-bit integer. *)
Definition to_int (x : Z) : Z := (x + 2 ^ 31) mod 2 ^ 32 - 2 ^ 31.

(** [static_cast<std::uint8_t>(x)]. *)
Definition to_uint8 (x : Z) : Z := x mod 2 ^ 8.

(** [static_cast<std::size_t>(x)] and [std::uint64_t] on LP64. *)
Definition to_size_t (x : Z) : Z := x mod 2 ^ 64.

Definition int_min : Z := - 2 ^ 31.
Definition int_max : Z := 2 ^ 31 - 1.
Definition is_int (x : Z) : Prop := int_min <= x <= int_max.
Definition is_size_t (x : Z) : Prop := 0 <= x < 2 ^ 64.

End Int.

(** ** Constants of the system headers

    <cerrno> and <sys/epoll.h> are not part of the repository; the values
    are those of Linux.  The flag constants are written as the single bit
    each one is. *)

Module Errno.
Definition ENOENT : Z := 2.
Definition EINTR : Z := 4.
Definition EBADF : Z := 9.
Definition EAGAIN : Z := 11.
Definition EWOULDBLOCK : Z := 11.
Definition EEXIST : Z := 17.
Definition EINVAL : Z := 22.
Definition EMFILE : Z := 24.
Definition EPIPE : Z := 32.
End Errno.

Module Epoll.
Definition EPOLLIN : Z := 2 ^ 0.
Definition EPOLLPRI : Z := 2 ^ 1.
Definition EPOLLOUT : Z := 2 ^ 2.
Definition EPOLLERR : Z := 2 ^ 3.
Definition EPOLLHUP : Z := 2 ^ 4.
Definition EPOLLRDHUP : Z := 2 ^ 13.
Definition EPOLLET : Z := 2 ^ 31.

(** Bit positions of the flags above. *)
Definition bit_in : Z := 0.
Definition bit_pri : Z := 1.
Definition bit_out : Z := 2.
Definition bit_err : Z := 3.
Definition bit_hup : Z := 4.
Definition bit_rdhup : Z := 13.
Definition bit_et : Z := 31.

Definition EPOLL_CLOEXEC : Z := 524288.
Definition EPOLL_CTL_ADD : Z := 1.
Definition EPOLL_CTL_DEL : Z := 2.
Definition EPOLL_CTL_MOD : Z := 3.

(** [::epoll_event]: the flag word and the 64-bit user data. *)
Record epoll_event := mk_event { events : Z; data_u64 : Z }.

(** [epoll_event ev{}]: value-initialised. *)
Definition zero_event : epoll_event := {| events := 0; data_u64 := 0 |}.
End Epoll.

(** ** error.hpp *)

Module error.

Record t := mk { code_ : Z }.

Definition code (e : t) : Z := code_ e.

Definition is_would_block (e : t) : bool :=
  (code_ e =? Errno.EAGAIN) || (code_ e =? Errno.EWOULDBLOCK).

Definition is_interrupted (e : t) : bool := code_ e =? Errno.EINTR.

Definition is_already_exists (e : t) : bool := code_ e =? Errno.EEXIST.

Definition is_broken_pipe (e : t) : bool := code_ e =? Errno.EPIPE.

End error.

(** [std::expected<T, error>]. *)
Inductive expected (T : Type) : Type :=
| value (v : T)
| unexpected (e : error.t).
Arguments value {T} v.
Arguments unexpected {T} e.

Definition has_value {T} (r : expected T) : bool :=
  match r with value _ => true | unexpected _ => false end.

Definition result (T : Type) : Type := expected T.
Definition void_result : Type := expected unit.

(** ** token.hpp *)

Module token.

Record t := mk { value_ : Z }.

(** [explicit token(std::size_t value)]. *)
Definition make (v : Z) : t := {| value_ := v |}.

Definition value (tok : t) : Z := value_ tok.

End token.

(** ** interest.hpp *)

Module interest.

Record t := mk { bits_ : Z }.

Definition k_readable : Z := 1.
Definition k_writable : Z := 2.
Definition k_priority : Z := 4.

Definition empty : t := {| bits_ := 0 |}.
Definition readable : t := {| bits_ := k_readable |}.
Definition writable : t := {| bits_ := k_writable |}.
Definition priority : t := {| bits_ := k_priority |}.

Definition is_readable (i : t) : bool :=
  negb (Z.land (bits_ i) k_readable =? 0).

Definition is_writable (i : t) : bool :=
  negb (Z.land (bits_ i) k_writable =? 0).

Definition is_priority (i : t) : bool :=
  negb (Z.land (bits_ i) k_priority =? 0).

Definition is_empty (i : t) : bool := bits_ i =? 0.

Definition raw (i : t) : Z := bits_ i.

(** [operator|]. *)
Definition union (a b : t) : t :=
  {| bits_ := Int.to_uint8 (Z.lor (bits_ a) (bits_ b)) |}.

Definition remove (a b : t) : t :=
  {| bits_ := Int.to_uint8 (Z.land (bits_ a) (Z.lnot (bits_ b))) |}.

End interest.

(** ** The operating-system interface *)

Module Sys.
Import Epoll.

(** The system calls the core makes, with the arguments it passes. *)
Inductive syscall : Type :=
| epoll_create1 (flags : Z)
| epoll_ctl (epfd op fd : Z) (ev : option epoll_event)
| epoll_wait (epfd maxevents timeout : Z)
| dup (oldfd : Z)
| close (fd : Z).

(** What a call answers: its return value, the code [errno] is set to
    when the return value is negative, and (for [epoll_wait]) the
    events the kernel stores at the start of the caller's buffer. *)
Record reply := mk_reply { ret : Z; err : Z; out : list epoll_event }.

Definition returns (n : Z) : reply := {| ret := n; err := 0; out := [] |}.
Definition fails (e : Z) : reply := {| ret := -1; err := e; out := [] |}.

(** A kernel is a state with a transition answering each call. *)
Class Kernel (K : Type) := sys : K -> syscall -> K * reply.

(** The process as the library sees it: the kernel, the thread's
    [errno], and the calls made so far (oldest first). *)
Record world (K : Type) := mk_world {
  kern : K;
  errno : Z;
  trace : list syscall
}.
Arguments mk_world {K} _ _ _.
Arguments kern {K} _.
Arguments errno {K} _.
Arguments trace {K} _.

(** One system call: the kernel moves, [errno] is written on failure
    only, the call is appended to the trace. *)
Definition invoke {K} `{Kernel K} (c : syscall) (w : world K)
  : reply * world K :=
  let '(k', r) := sys (kern w) c in
  (r, {| kern := k';
         errno := if ret r <? 0 then err r else errno w;
         trace := trace w ++ [c] |}).

(** [error::last_os_error()]. *)
Definition last_os_error {K} (w : world K) : error.t :=
  error.mk (errno w).

(** The timeouts handed to the kernel's wait call in a trace. *)
Definition wait_timeouts (tr : list syscall) : list Z :=
  omap (fun c => match c with epoll_wait _ _ t => Some t | _ => None end) tr.

(** The contract of epoll_wait(2) on its return value: at most
    [maxevents] events are delivered. *)
Definition wait_bounded (K : Type) `{Kernel K} : Prop :=
  forall k epfd maxevents timeout,
    0 <= ret (sys k (epoll_wait epfd maxevents timeout)).2 ->
    ret (sys k (epoll_wait epfd maxevents timeout)).2 <= maxevents.

End Sys.

(** A scripted kernel, for running the model on concrete inputs: the
    answers to the wait calls and to the other calls are queued in
    advance.  As epoll_wait(2) documents, a wait with [maxevents <= 0]
    fails with EINVAL, and a wait never delivers more than [maxevents]
    events; with nothing scripted a wait times out with no event and any
    other call returns 0. *)

Module Script.
Import Epoll Sys.

Inductive answer (A : Type) : Type :=
| ok (a : A)
| fail (e : Z).
Arguments ok {A} a.
Arguments fail {A} e.

Record t := mk {
  waits : list (answer (list epoll_event));
  calls : list (answer Z)
}.

Definition step (k : t) (c : syscall) : t * reply :=
  match c with
  | epoll_wait _ maxevents _ =>
      if maxevents <=? 0 then (k, fails Errno.EINVAL)
      else match waits k with
           | [] => (k, returns 0)
           | ok evs :: rest =>
               let delivered := take (Z.to_nat maxevents) evs in
               ({| waits := rest; calls := calls k |},
                {| ret := Z.of_nat (length delivered); err := 0;
                   out := delivered |})
           | fail e :: rest =>
               ({| waits := rest; calls := calls k |}, fails e)
           end
  | _ =>
      match calls k with
      | [] => (k, returns 0)
      | ok n :: rest => ({| waits := waits k; calls := rest |}, returns n)
      | fail e :: rest => ({| waits := waits k; calls := rest |}, fails e)
      end
  end.

#[global] Instance kernel : Kernel t := step.

Definition boot (ws : list (answer (list epoll_event)))
    (cs : list (answer Z)) : world t :=
  {| kern := {| waits := ws; calls := cs |}; errno := 0; trace := [] |}.

End Script.

(** ** sys/detail/fd_guard.hpp *)

Module fd_guard.
Import Sys.

Record t := mk { fd_ : Z }.

(** [fd_guard()]. *)
Definition empty : t := {| fd_ := -1 |}.

(** [explicit fd_guard(const int fd)]. *)
Definition make (fd : Z) : t := {| fd_ := fd |}.

Definition raw_fd (g : t) : Z := fd_ g.

(** [explicit operator bool()]. *)
Definition to_bool (g : t) : bool := 0 <=? fd_ g.

(** The guarded close shared by the destructor, move assignment and
    [reset]: [if (fd_ >= 0) close(fd_);]. *)
Definition close_held {K} `{Kernel K} (g : t) (w : world K) : world K :=
  if 0 <=? fd_ g then (invoke (close (fd_ g)) w).2 else w.

(** [~fd_guard()]. *)
Definition destroy {K} `{Kernel K} (g : t) (w : world K) : world K :=
  close_held g w.

(** [std::exchange(fd_, v)]: the old value and the updated object. *)
Definition exchange (g : t) (v : Z) : Z * t := (fd_ g, {| fd_ := v |}).

(** [fd_guard(fd_guard&& other)]: the new object and what is left of
    [other]. *)
Definition move (other : t) : t * t :=
  let '(old, other') := exchange other (-1) in ({| fd_ := old |}, other').

(** [release()]. *)
Definition release (g : t) : Z * t := exchange g (-1).

(** [reset(fd)]; [reset_default] is the call with the argument left
    out. *)
Definition reset {K} `{Kernel K} (g : t) (fd : Z) (w : world K)
  : t * world K :=
  ({| fd_ := fd |}, close_held g w).

Definition reset_default {K} `{Kernel K} (g : t) (w : world K)
  : t * world K :=
  reset g (-1) w.

End fd_guard.

(** Descriptor handles as objects: a store of live handles by address,
    and the operations of the class as transitions on it.  Move
    assignment names two addresses, which may be the same one. *)

Module handles.
Import Sys.

Definition store : Type := gmap Z fd_guard.t.

Inductive op : Type :=
| construct_empty (this : Z)
| construct_from (this : Z) (fd : Z)
| construct_move (this other : Z)
| assign_move (this other : Z)
| call_release (this : Z)
| call_reset (this : Z) (fd : Z)
| call_reset_default (this : Z)
| destroy_at (this : Z).

(** The integers an operation adopts from its caller. *)
Definition adopted (o : op) : list Z :=
  match o with
  | construct_from _ fd | call_reset _ fd => [fd]
  | _ => []
  end.

(** One operation.  [None]: the operation is not one a program can
    perform (it constructs over a live object or uses a dead one). *)
Definition step {K} `{Kernel K} (o : op) (s : store) (w : world K)
  : option (store * world K) :=
  match o with
  | construct_empty this =>
      match s !! this with
      | Some _ => None
      | None => Some (<[this := fd_guard.empty]> s, w)
      end
  | construct_from this fd =>
      match s !! this with
      | Some _ => None
      | None => Some (<[this := fd_guard.make fd]> s, w)
      end
  | construct_move this other =>
      match s !! this, s !! other with
      | None, Some o =>
          let '(new, o') := fd_guard.move o in
          Some (<[this := new]> (<[other := o']> s), w)
      | _, _ => None
      end
  | assign_move this other =>
      match s !! this, s !! other with
      | Some g, Some o =>
          if bool_decide (this = other) then Some (s, w)
          else
            let w' := fd_guard.close_held g w in
            let '(old, o') := fd_guard.exchange o (-1) in
            Some (<[this := fd_guard.mk old]> (<[other := o']> s), w')
      | _, _ => None
      end
  | call_release this =>
      match s !! this with
      | Some g => Some (<[this := (fd_guard.release g).2]> s, w)
      | None => None
      end
  | call_reset this fd =>
      match s !! this with
      | Some g =>
          let '(g', w') := fd_guard.reset g fd w in
          Some (<[this := g']> s, w')
      | None => None
      end
  | call_reset_default this =>
      match s !! this with
      | Some g =>
          let '(g', w') := fd_guard.reset_default g w in
          Some (<[this := g']> s, w')
      | None => None
      end
  | destroy_at this =>
      match s !! this with
      | Some g => Some (delete this s, fd_guard.destroy g w)
      | None => None
      end
  end.

Fixpoint run {K} `{Kernel K} (os : list op) (s : store) (w : world K)
  : option (store * world K) :=
  match os with
  | [] => Some (s, w)
  | o :: os' =>
      match step o s w with
      | Some (s', w') => run os' s' w'
      | None => None
      end
  end.

End handles.

(** ** event.hpp *)

Module event.
Import Epoll.

(** An event view borrows one raw event. *)
Record t := mk { raw_ : epoll_event }.

Definition tok (e : t) : token.t := token.make (data_u64 (raw_ e)).

Definition is_readable (e : t) : bool :=
  negb (Z.land (events (raw_ e)) EPOLLIN =? 0).

Definition is_writable (e : t) : bool :=
  negb (Z.land (events (raw_ e)) EPOLLOUT =? 0).

Definition is_error (e : t) : bool :=
  negb (Z.land (events (raw_ e)) EPOLLERR =? 0).

Definition is_read_closed (e : t) : bool :=
  negb (Z.land (events (raw_ e)) (Z.lor EPOLLHUP EPOLLRDHUP) =? 0).

Definition is_write_closed (e : t) : bool :=
  negb (Z.land (events (raw_ e)) (Z.lor EPOLLHUP EPOLLERR) =? 0).

Definition is_priority (e : t) : bool :=
  negb (Z.land (events (raw_ e)) EPOLLPRI =? 0).

Definition raw (e : t) : epoll_event := raw_ e.

End event.

Module events.
Import Epoll.

(** The batch: the owned buffer, its capacity and the current length
    (both [std::size_t]). *)
Record t := mk {
  buf_ : list epoll_event;
  capacity_ : Z;
  len_ : Z
}.

(** [explicit events(std::size_t capacity)]: [make_unique] of an array
    value-initialises its elements. *)
Definition make (capacity : Z) : t :=
  {| buf_ := replicate (Z.to_nat capacity) zero_event;
     capacity_ := capacity;
     len_ := 0 |}.

Definition size (evs : t) : Z := len_ evs.
Definition capacity (evs : t) : Z := capacity_ evs.
Definition is_empty (evs : t) : bool := len_ evs =? 0.

(** [operator[](i)]: a view of [buf_[i]].  [None] stands for an access
    outside the allocation, which C++ leaves undefined. *)
Definition index (evs : t) (i : Z) : option event.t :=
  if i <? 0 then None else event.mk <$> buf_ evs !! Z.to_nat i.

(** What iterating from [begin()] to [end()] visits. *)
Definition to_list (evs : t) : list event.t :=
  event.mk <$> take (Z.to_nat (len_ evs)) (buf_ evs).

Definition raw_buf (evs : t) : list epoll_event := buf_ evs.

Definition raw_capacity (evs : t) : Z := Int.to_int (capacity_ evs).

Definition set_len (evs : t) (len : Z) : t :=
  {| buf_ := buf_ evs; capacity_ := capacity_ evs; len_ := len |}.

Definition clear (evs : t) : t := set_len evs 0.

(** The buffer after the selector wrote through [raw_buf()]. *)
Definition with_buf (evs : t) (buf : list epoll_event) : t :=
  {| buf_ := buf; capacity_ := capacity_ evs; len_ := len_ evs |}.

(** The class invariant: the buffer holds [capacity_] slots. *)
Definition wf (evs : t) : Prop :=
  Int.is_size_t (capacity_ evs) /\
  Z.of_nat (length (buf_ evs)) = capacity_ evs.

End events.

(** ** sys/unix_/epoll_selector.cpp *)

Module epoll_selector.
Import Epoll Sys.

Record t := mk { epoll_fd_ : fd_guard.t }.

Definition raw_fd (self : t) : Z := fd_guard.raw_fd (epoll_fd_ self).

(** [~epoll_selector()]: destroys the member. *)
Definition destroy {K} `{Kernel K} (self : t) (w : world K) : world K :=
  fd_guard.destroy (epoll_fd_ self) w.

Definition create {K} `{Kernel K} (w : world K) : result t * world K :=
  let '(r, w1) := invoke (epoll_create1 EPOLL_CLOEXEC) w in
  let fd := ret r in
  if fd <? 0 then (unexpected (last_os_error w1), w1)
  else (value {| epoll_fd_ := fd_guard.make fd |}, w1).

Definition interest_to_epoll (i : interest.t) : Z :=
  let flags := EPOLLET in
  let flags :=
    if interest.is_readable i then Z.lor flags (Z.lor EPOLLIN EPOLLRDHUP)
    else flags in
  let flags :=
    if interest.is_writable i then Z.lor flags EPOLLOUT else flags in
  let flags :=
    if interest.is_priority i then Z.lor flags EPOLLPRI else flags in
  flags.

(** The caller's buffer after the kernel stored [written] at its
    start. *)
Definition store_events (written buf : list epoll_event)
  : list epoll_event :=
  take (length buf) written ++ drop (length written) buf.

(** One pass through the body of the [do ... while]: the wait call,
    and whether the loop condition [n < 0 && errno == EINTR] holds
    after it. *)
Definition wait_once {K} `{Kernel K} (epfd : Z)
    (buf : list epoll_event) (max_events timeout_ms : Z) (w : world K)
  : (Z * list epoll_event * world K) * bool :=
  let '(r, w1) := invoke (epoll_wait epfd max_events timeout_ms) w in
  let n := ret r in
  ((n, store_events (out r) buf, w1),
   (n <? 0) && (errno w1 =? Errno.EINTR)).

(** The [do ... while] loop.  It has no bound in the code; [fuel]
    bounds the number of wait calls made.  The answer is [Some n] when
    the loop was left with [n], and [None] when the last of [fuel] waits
    was still an interrupted one; the buffer and the world are those
    reached either way. *)
Fixpoint wait_loop {K} `{Kernel K} (fuel : nat) (epfd : Z)
    (buf : list epoll_event) (max_events timeout_ms : Z) (w : world K)
  : option Z * list epoll_event * world K :=
  match fuel with
  | O => (None, buf, w)
  | S fuel' =>
      let '((n, buf1, w1), again) :=
        wait_once epfd buf max_events timeout_ms w in
      if again then wait_loop fuel' epfd buf1 max_events timeout_ms w1
      else (Some n, buf1, w1)
  end.

(** The timeout argument computed before the loop. *)
Definition timeout_ms (timeout : option Z) : Z :=
  match timeout with
  | Some count => Int.to_int count
  | None => -1
  end.

Definition select {K} `{Kernel K} (fuel : nat) (self : t)
    (events : list epoll_event) (max_events : Z) (timeout : option Z)
    (w : world K)
  : option (result Z) * list epoll_event * world K :=
  let '(n, buf, w1) :=
    wait_loop fuel (raw_fd self) events max_events (timeout_ms timeout) w in
  match n with
  | None => (None, buf, w1)
  | Some n =>
      if n <? 0 then (Some (unexpected (last_os_error w1)), buf, w1)
      else (Some (value n), buf, w1)
  end.

(** The [epoll_event] both registration calls build. *)
Definition make_event (tok : token.t) (i : interest.t) : epoll_event :=
  {| events := interest_to_epoll i; data_u64 := token.value tok |}.

Definition ctl {K} `{Kernel K} (self : t) (op fd : Z)
    (ev : option epoll_event) (w : world K) : void_result * world K :=
  let '(r, w1) := invoke (epoll_ctl (raw_fd self) op fd ev) w in
  if ret r <? 0 then (unexpected (last_os_error w1), w1)
  else (value tt, w1).

Definition register_fd {K} `{Kernel K} (self : t) (fd : Z)
    (tok : token.t) (i : interest.t) (w : world K)
  : void_result * world K :=
  ctl self EPOLL_CTL_ADD fd (Some (make_event tok i)) w.

Definition reregister_fd {K} `{Kernel K} (self : t) (fd : Z)
    (tok : token.t) (i : interest.t) (w : world K)
  : void_result * world K :=
  ctl self EPOLL_CTL_MOD fd (Some (make_event tok i)) w.

Definition deregister_fd {K} `{Kernel K} (self : t) (fd : Z)
    (w : world K) : void_result * world K :=
  ctl self EPOLL_CTL_DEL fd None w.

Definition try_clone {K} `{Kernel K} (self : t) (w : world K)
  : result t * world K :=
  let '(r, w1) := invoke (dup (raw_fd self)) w in
  let new_fd := ret r in
  if new_fd <? 0 then (unexpected (last_os_error w1), w1)
  else (value {| epoll_fd_ := fd_guard.make new_fd |}, w1).

End epoll_selector.

(** ** poll.hpp, poll.cpp *)

Module registry.
Import Sys.

(** A registry is a pointer to a selector. *)
Record t := mk { sel_ : Z }.

(** The selector objects alive, by address. *)
Definition memory : Type := gmap Z epoll_selector.t.

(** The operations dereference [sel_]; [None] stands for a pointer to
    no live selector. *)
Definition register_fd {K} `{Kernel K} (self : t) (fd : Z)
    (tok : token.t) (i : interest.t) (m : memory) (w : world K)
  : option (void_result * world K) :=
  sel ← m !! sel_ self;
  Some (epoll_selector.register_fd sel fd tok i w).

Definition reregister_fd {K} `{Kernel K} (self : t) (fd : Z)
    (tok : token.t) (intr : interest.t) (m : memory) (w : world K)
  : option (void_result * world K) :=
  sel ← m !! sel_ self;
  Some (epoll_selector.reregister_fd sel fd tok intr w).

Definition deregister_fd {K} `{Kernel K} (self : t) (fd : Z)
    (m : memory) (w : world K) : option (void_result * world K) :=
  sel ← m !! sel_ self;
  Some (epoll_selector.deregister_fd sel fd w).

(** [try_clone]: the local [cloned] is destroyed when the function
    returns, after the returned registry was built from [sel_]. *)
Definition try_clone {K} `{Kernel K} (self : t) (m : memory)
    (w : world K) : option (result t * world K) :=
  sel ← m !! sel_ self;
  let '(cloned, w1) := epoll_selector.try_clone sel w in
  match cloned with
  | unexpected e => Some (unexpected e, w1)
  | value c =>
      let returned := {| sel_ := sel_ self |} in
      Some (value returned, epoll_selector.destroy c w1)
  end.

End registry.

Module poll.
Import Sys.

Record t := mk { sel_ : epoll_selector.t }.

Definition create {K} `{Kernel K} (w : world K) : result t * world K :=
  let '(sel, w1) := epoll_selector.create w in
  match sel with
  | unexpected e => (unexpected e, w1)
  | value s => (value {| sel_ := s |}, w1)
  end.

(** [get_registry()]: [registry{&sel_}], for a poll whose selector
    member lives at [addr]. *)
Definition get_registry (addr : Z) : registry.t := registry.mk addr.

Definition do_poll {K} `{Kernel K} (fuel : nat) (self : t)
    (evs : events.t) (timeout : option Z) (w : world K)
  : option void_result * events.t * world K :=
  let evs := events.clear evs in
  let '(n, buf, w1) :=
    epoll_selector.select fuel (sel_ self) (events.raw_buf evs)
      (events.raw_capacity evs) timeout w in
  let evs := events.with_buf evs buf in
  match n with
  | None => (None, evs, w1)
  | Some (unexpected e) => (Some (unexpected e), evs, w1)
  | Some (value n) =>
      (Some (value tt), events.set_len evs (Int.to_size_t n), w1)
  end.

End poll.

(** ** source.hpp: the concept, read on class declarations

    Whether a type satisfies a concept is decided by the members it
    declares.  A class is represented by the member functions it declares
    that take part in registration, each with its name, parameter types
    and return type as written in its header. *)

Module Cpp.

Inductive type : Type :=
| t_void_result
| t_registry_cref
| t_registry
| t_token
| t_interest
| t_result_waker
| t_void.

#[global] Instance type_eq_dec : EqDecision type.
Proof. solve_decision. Defined.

Record method := mk_method {
  m_name : string;
  m_params : list type;
  m_ret : type
}.

Record class := mk_class {
  c_name : string;
  c_methods : list method
}.

(** [s.name(args...)] is a valid expression of type [ret]. *)
Definition callable (c : class) (name : string) (args : list type)
    (ret : type) : bool :=
  existsb
    (fun m =>
       bool_decide (m_name m = name) &&
       bool_decide (m_params m = args) &&
       bool_decide (m_ret m = ret))
    (c_methods c).

(** [concept source]. *)
Definition source (c : class) : bool :=
  callable c "tio_register" [t_registry_cref; t_token; t_interest]
    t_void_result &&
  callable c "tio_reregister" [t_registry_cref; t_token; t_interest]
    t_void_result &&
  callable c "tio_deregister" [t_registry_cref] t_void_result.

(** The members the bodies of [registry::register_source],
    [reregister_source] and [deregister_source] call on their argument. *)
Definition forwards_compile (c : class) : bool :=
  callable c "mio_register" [t_registry_cref; t_token; t_interest]
    t_void_result &&
  callable c "mio_reregister" [t_registry_cref; t_token; t_interest]
    t_void_result &&
  callable c "mio_deregister" [t_registry_cref] t_void_result.

(** [registry::register_source<s_t>] and its two siblings are
    well-formed for a type when the [requires source<s_t>] clause holds
    and the body type-checks. *)
Definition register_source_well_formed (c : class) : bool :=
  source c && forwards_compile c.

(** The registration members of a class that names them with
    [prefix]. *)
Definition registration_members (prefix : string) : list method :=
  [ mk_method (prefix +:+ "register")
      [t_registry_cref; t_token; t_interest] t_void_result;
    mk_method (prefix +:+ "reregister")
      [t_registry_cref; t_token; t_interest] t_void_result;
    mk_method (prefix +:+ "deregister") [t_registry_cref] t_void_result ].

End Cpp.

(** ** The wrappers *)

Module raw_fd.
Import Sys.

(** A non-owning source: the descriptor is a plain [int]. *)
Record t := mk { fd_ : Z }.

Definition fd (self : t) : Z := fd_ self.

Definition tio_register {K} `{Kernel K} (self : t) (reg : registry.t)
    (tok : token.t) (intr : interest.t) (m : registry.memory)
    (w : world K) : option (void_result * world K) :=
  registry.register_fd reg (fd_ self) tok intr m w.

Definition tio_reregister {K} `{Kernel K} (self : t) (reg : registry.t)
    (tok : token.t) (intr : interest.t) (m : registry.memory)
    (w : world K) : option (void_result * world K) :=
  registry.reregister_fd reg (fd_ self) tok intr m w.

Definition tio_deregister {K} `{Kernel K} (self : t) (reg : registry.t)
    (m : registry.memory) (w : world K)
  : option (void_result * world K) :=
  registry.deregister_fd reg (fd_ self) m w.

Definition decl : Cpp.class :=
  Cpp.mk_class "raw_fd" (Cpp.registration_members "tio_").

End raw_fd.

Module udp_socket.
Import Sys.

Record t := mk { fd_ : fd_guard.t }.

Definition raw_fd (self : t) : Z := fd_guard.raw_fd (fd_ self).

Definition tio_register {K} `{Kernel K} (self : t) (reg : registry.t)
    (tok : token.t) (intr : interest.t) (m : registry.memory)
    (w : world K) : option (void_result * world K) :=
  registry.register_fd reg (fd_guard.raw_fd (fd_ self)) tok intr m w.

Definition tio_reregister {K} `{Kernel K} (self : t) (reg : registry.t)
    (tok : token.t) (intr : interest.t) (m : registry.memory)
    (w : world K) : option (void_result * world K) :=
  registry.reregister_fd reg (fd_guard.raw_fd (fd_ self)) tok intr m w.

Definition tio_deregister {K} `{Kernel K} (self : t) (reg : registry.t)
    (m : registry.memory) (w : world K)
  : option (void_result * world K) :=
  registry.deregister_fd reg (fd_guard.raw_fd (fd_ self)) m w.

Definition decl : Cpp.class :=
  Cpp.mk_class "udp_socket" (Cpp.registration_members "tio_").

End udp_socket.

Module unix_listener.
Import Sys.

Record t := mk { fd_ : fd_guard.t }.

Definition raw_fd (self : t) : Z := fd_guard.raw_fd (fd_ self).

Definition tio_register {K} `{Kernel K} (self : t) (reg : registry.t)
    (tok : token.t) (intr : interest.t) (m : registry.memory)
    (w : world K) : option (void_result * world K) :=
  registry.register_fd reg (fd_guard.raw_fd (fd_ self)) tok intr m w.

Definition tio_reregister {K} `{Kernel K} (self : t) (reg : registry.t)
    (tok : token.t) (intr : interest.t) (m : registry.memory)
    (w : world K) : option (void_result * world K) :=
  registry.reregister_fd reg (fd_guard.raw_fd (fd_ self)) tok intr m w.

Definition tio_deregister {K} `{Kernel K} (self : t) (reg : registry.t)
    (m : registry.memory) (w : world K)
  : option (void_result * world K) :=
  registry.deregister_fd reg (fd_guard.raw_fd (fd_ self)) m w.

Definition decl : Cpp.class :=
  Cpp.mk_class "unix_listener" (Cpp.registration_members "tio_").

End unix_listener.

(** The wrappers below name their registration members [mio_...]. *)

Module tcp_listener.
Definition decl : Cpp.class :=
  Cpp.mk_class "tcp_listener" (Cpp.registration_members "mio_").
End tcp_listener.

Module tcp_stream.
Definition decl : Cpp.class :=
  Cpp.mk_class "tcp_stream" (Cpp.registration_members "mio_").
End tcp_stream.

Module unix_datagram.
Definition decl : Cpp.class :=
  Cpp.mk_class "unix_datagram" (Cpp.registration_members "mio_").
End unix_datagram.

Module pipe_sender.
Import Sys.

Record t := mk { fd_ : fd_guard.t }.

Definition raw_fd (self : t) : Z := fd_guard.raw_fd (fd_ self).

Definition mio_register {K} `{Kernel K} (self : t) (reg : registry.t)
    (tok : token.t) (intr : interest.t) (m : registry.memory)
    (w : world K) : option (void_result * world K) :=
  registry.register_fd reg (fd_guard.raw_fd (fd_ self)) tok intr m w.

Definition mio_reregister {K} `{Kernel K} (self : t) (reg : registry.t)
    (tok : token.t) (intr : interest.t) (m : registry.memory)
    (w : world K) : option (void_result * world K) :=
  registry.reregister_fd reg (fd_guard.raw_fd (fd_ self)) tok intr m w.

Definition mio_deregister {K} `{Kernel K} (self : t) (reg : registry.t)
    (m : registry.memory) (w : world K)
  : option (void_result * world K) :=
  registry.deregister_fd reg (fd_guard.raw_fd (fd_ self)) m w.

Definition decl : Cpp.class :=
  Cpp.mk_class "pipe_sender" (Cpp.registration_members "mio_").

End pipe_sender.

Module pipe_receiver.
Definition decl : Cpp.class :=
  Cpp.mk_class "pipe_receiver" (Cpp.registration_members "mio_").
End pipe_receiver.

(** waker.hpp: the public members are [create], [wake] and [drain]; the
    class declares no registration member. *)

Module waker.
Definition decl : Cpp.class :=
  Cpp.mk_class "waker"
    [ Cpp.mk_method "create" [Cpp.t_registry; Cpp.t_token]
        Cpp.t_result_waker;
      Cpp.mk_method "wake" [] Cpp.t_void_result;
      Cpp.mk_method "drain" [] Cpp.t_void ].
End waker.

(** The wrappers whose headers are at hand, and those of them that
    declare the members the concept asks for. *)

Definition standard_wrappers : list Cpp.class :=
  [ tcp_listener.decl; tcp_stream.decl; udp_socket.decl;
    unix_listener.decl; unix_datagram.decl;
    pipe_sender.decl; pipe_receiver.decl; raw_fd.decl; waker.decl ].

(** A value of one of the three wrapper types that declare [tio_...]
    members, with the dispatch a template instantiation performs. *)

Inductive tio_wrapper : Type :=
| of_raw_fd (s : raw_fd.t)
| of_udp_socket (s : udp_socket.t)
| of_unix_listener (s : unix_listener.t).

Module tio_wrapper_ops.
Import Sys.

Definition decl (s : tio_wrapper) : Cpp.class :=
  match s with
  | of_raw_fd _ => raw_fd.decl
  | of_udp_socket _ => udp_socket.decl
  | of_unix_listener _ => unix_listener.decl
  end.

(** The descriptor the wrapper holds. *)
Definition held_fd (s : tio_wrapper) : Z :=
  match s with
  | of_raw_fd s => raw_fd.fd_ s
  | of_udp_socket s => fd_guard.fd_ (udp_socket.fd_ s)
  | of_unix_listener s => fd_guard.fd_ (unix_listener.fd_ s)
  end.

Definition tio_register {K} `{Kernel K} (s : tio_wrapper)
    (reg : registry.t) (tok : token.t) (intr : interest.t)
    (m : registry.memory) (w : world K)
  : option (void_result * world K) :=
  match s with
  | of_raw_fd s => raw_fd.tio_register s reg tok intr m w
  | of_udp_socket s => udp_socket.tio_register s reg tok intr m w
  | of_unix_listener s => unix_listener.tio_register s reg tok intr m w
  end.

Definition tio_reregister {K} `{Kernel K} (s : tio_wrapper)
    (reg : registry.t) (tok : token.t) (intr : interest.t)
    (m : registry.memory) (w : world K)
  : option (void_result * world K) :=
  match s with
  | of_raw_fd s => raw_fd.tio_reregister s reg tok intr m w
  | of_udp_socket s => udp_socket.tio_reregister s reg tok intr m w
  | of_unix_listener s => unix_listener.tio_reregister s reg tok intr m w
  end.

Definition tio_deregister {K} `{Kernel K} (s : tio_wrapper)
    (reg : registry.t) (m : registry.memory) (w : world K)
  : option (void_result * world K) :=
  match s with
  | of_raw_fd s => raw_fd.tio_deregister s reg m w
  | of_udp_socket s => udp_socket.tio_deregister s reg m w
  | of_unix_listener s => unix_listener.tio_deregister s reg m w
  end.

End tio_wrapper_ops.


(** * Vocabulary of the statements, and sample runs *)

(** A value a handle may hold under the documented discipline: a
    descriptor, or the sentinel. *)
Definition descriptor_or_sentinel (n : Z) : Prop := 0 <= n \/ n = -1.

Definition store_ok (s : handles.store) : Prop :=
  map_Forall (fun _ g => descriptor_or_sentinel (fd_guard.fd_ g)) s.

(** A run of handle operations: adopt 7, move it into a second handle,
    self-assign, reset the first to 9, release the second, destroy the
    first. *)
Definition demo_ops : list handles.op :=
  [ handles.construct_from 100 7;
    handles.construct_empty 200;
    handles.assign_move 200 100;
    handles.assign_move 200 200;
    handles.call_reset 100 9;
    handles.call_release 200;
    handles.destroy_at 100 ].

(** A kernel that, as Linux does, fails a wait for at most zero events
    with EINVAL. *)
Definition rejects_empty_wait (K : Type) `{Sys.Kernel K} : Prop :=
  forall k epfd timeout,
    Sys.ret (Sys.sys k (Sys.epoll_wait epfd 0 timeout)).2 < 0 /\
    Sys.err (Sys.sys k (Sys.epoll_wait epfd 0 timeout)).2 = Errno.EINVAL.

(** A selector whose epoll descriptor is 3, and a raw event with the
    input-ready flag for token 1. *)
Definition demo_selector : epoll_selector.t :=
  epoll_selector.mk (fd_guard.make 3).

Definition demo_event : Epoll.epoll_event :=
  Epoll.mk_event Epoll.EPOLLIN 1.

(** A poll owning [demo_selector]; a batch of capacity 4 that still
    reports 3 events from an earlier round; a registry pointing at
    address 4096, and a memory with [demo_selector] there. *)
Definition demo_poll : poll.t := poll.mk demo_selector.

Definition stale_batch : events.t :=
  events.mk [demo_event; demo_event; demo_event; Epoll.zero_event] 4 3.

Definition demo_registry : registry.t := poll.get_registry 4096.

Definition demo_memory : registry.memory := {[ 4096 := demo_selector ]}.


(** * Further vocabulary *)

(** The values an [interest] can take: its constructor from a byte is
    private, so every value is built from the empty interest and the
    three constants with [operator|] and [remove], and uses the three
    low bits only. *)
Definition interest_valid (i : interest.t) : Prop :=
  0 <= interest.bits_ i < 8.

(** [~poll()], implicitly defined: destroys the member [sel_]. *)
Definition poll_destroy {K} `{Sys.Kernel K} (self : poll.t)
    (w : Sys.world K) : Sys.world K :=
  epoll_selector.destroy (poll.sel_ self) w.

(** ** event.hpp: iterating a batch

    A pointer into the buffer of a batch is modelled by the index of
    the slot it points to, and the null pointer of a
    default-constructed iterator by [None]. *)

Module event_iterator.
Import Epoll.

Record t := mk { ptr_ : option Z }.

(** [event_iterator()]. *)
Definition default : t := {| ptr_ := None |}.

(** [explicit event_iterator(const sys::raw_event* ptr)]. *)
Definition make (ptr : Z) : t := {| ptr_ := Some ptr |}.

(** [operator*]: a view of the slot pointed to.  [None] stands for a
    read through the null pointer or outside the buffer, which C++
    leaves undefined. *)
Definition deref (buf : list epoll_event) (it : t) : option event.t :=
  match ptr_ it with
  | Some p => if p <? 0 then None else event.mk <$> buf !! Z.to_nat p
  | None => None
  end.

(** [operator++()]: the iterator after [++ptr_]. *)
Definition incr (it : t) : t := {| ptr_ := Z.succ <$> ptr_ it |}.

(** [operator++(int)]: the copy returned, and the iterator after. *)
Definition post_incr (it : t) : t * t := (it, incr it).

(** [operator==]: [ptr_ == other.ptr_]. *)
Definition eqb (a b : t) : bool :=
  match ptr_ a, ptr_ b with
  | Some p, Some q => p =? q
  | None, None => true
  | _, _ => false
  end.

End event_iterator.

(** [events::begin()] and [events::end()]: [buf_.get()] and
    [buf_.get() + len_]. *)
Definition events_begin (evs : events.t) : event_iterator.t :=
  event_iterator.make 0.

Definition events_end (evs : events.t) : event_iterator.t :=
  event_iterator.make (0 + events.len_ evs).

(** The loop [for (auto it = first; it != last; ++it)] that a
    range-based [for] over a batch stands for, as the events [*it] its
    body is run on.  The loop has no bound in the code; [fuel] bounds
    the number of passes, and the answer is [None] when that bound is
    exhausted or when [*it] has no slot to read. *)
Fixpoint visit (fuel : nat) (buf : list Epoll.epoll_event)
    (it last : event_iterator.t) : option (list event.t) :=
  if event_iterator.eqb it last then Some []
  else
    match fuel with
    | O => None
    | S fuel' =>
        ev ← event_iterator.deref buf it;
        rest ← visit fuel' buf (event_iterator.incr it) last;
        Some (ev :: rest)
    end.

(** [for (const auto& ev : evs)]. *)
Definition range_for (fuel : nat) (evs : events.t)
  : option (list event.t) :=
  visit fuel (events.buf_ evs) (events_begin evs) (events_end evs).

(** A wait call that failed with EINTR. *)
Definition interrupted (r : Sys.reply) : Prop :=
  Sys.ret r < 0 /\ Sys.err r = Errno.EINTR.

(** The kernel's answer to the wait call [select] makes in a world. *)
Definition wait_reply {K} `{Sys.Kernel K} (epfd max_events tm : Z)
    (w : Sys.world K) : Sys.reply :=
  (Sys.sys (Sys.kern w) (Sys.epoll_wait epfd max_events tm)).2.

(** The buffer and the world after [k] wait calls were made one after
    the other. *)
Fixpoint after_waits {K} `{Sys.Kernel K} (k : nat) (epfd : Z)
    (buf : list Epoll.epoll_event) (max_events tm : Z) (w : Sys.world K)
  : list Epoll.epoll_event * Sys.world K :=
  match k with
  | O => (buf, w)
  | S k' =>
      after_waits k' epfd
        (epoll_selector.store_events
           (Sys.out (wait_reply epfd max_events tm w)) buf)
        max_events tm
        (Sys.invoke (Sys.epoll_wait epfd max_events tm) w).2
  end.

(** ** Where the descriptors of a run of handle operations are *)

From stdpp Require Import gmultiset.
Local Open Scope Z_scope.

(** What a handle holds: its descriptor when it is not empty. *)
Definition holding (g : fd_guard.t) : gmultiset Z :=
  if fd_guard.to_bool g then {[+ fd_guard.fd_ g +]} else ∅.

(** The descriptors held by the live handles of a store, each as often
    as it is held. *)
Definition held (s : gmap Z fd_guard.t) : gmultiset Z :=
  map_fold (fun _ g acc => holding g ⊎ acc) ∅ s.

(** The descriptors closed in a trace, each as often as it was
    closed. *)
Definition closed (tr : list Sys.syscall) : gmultiset Z :=
  list_to_set_disj
    (omap (fun c => match c with Sys.close fd => Some fd | _ => None end)
       tr).

(** The descriptors (non-negative integers) an operation adopts, and
    the descriptor a [release()] hands back to its caller. *)
Definition adopts (o : handles.op) : gmultiset Z :=
  list_to_set_disj (filter (fun n => 0 <= n) (handles.adopted o)).

Definition releases (o : handles.op) (s : handles.store) : gmultiset Z :=
  match o with
  | handles.call_release this =>
      match s !! this with
      | Some g => holding (fd_guard.make (fd_guard.release g).1)
      | None => ∅
      end
  | _ => ∅
  end.

(** The same, summed over a run. *)
Fixpoint run_adopts (os : list handles.op) : gmultiset Z :=
  match os with
  | [] => ∅
  | o :: os' => adopts o ⊎ run_adopts os'
  end.

Fixpoint run_releases {K} `{Sys.Kernel K} (os : list handles.op)
    (s : handles.store) (w : Sys.world K) : gmultiset Z :=
  match os with
  | [] => ∅
  | o :: os' =>
      match handles.step o s w with
      | Some (s', w') => releases o s ⊎ run_releases os' s' w'
      | None => ∅
      end
  end.

(** ** sys/detail/unix_addr.hpp

    <sys/un.h> and <sys/socket.h> are not part of the repository; on
    Linux [sa_family_t] has two bytes, [sun_path] starts at offset 2 of
    [sockaddr_un] and has 108 characters, and [socklen_t] has 32 bits
    without a sign. *)

Module unix_addr.

Definition AF_UNIX : Z := 1.
Definition sizeof_sa_family_t : Z := 2.
Definition offsetof_sun_path : Z := 2.
Definition sizeof_sun_path : Z := 108.

(** [static_cast<socklen_t>(x)]. *)
Definition to_socklen (x : Z) : Z := x mod 2 ^ 32.

Record sockaddr_un := mk_sockaddr_un {
  sun_family : Z;
  sun_path : list Ascii.ascii
}.

Record t := mk { storage_ : sockaddr_un; len_ : Z }.

(** [storage_{}]: every member zero. *)
Definition zero_storage : sockaddr_un :=
  {| sun_family := 0;
     sun_path := replicate (Z.to_nat sizeof_sun_path) Ascii.zero |}.

(** [unix_addr()]. *)
Definition default : t :=
  {| storage_ := {| sun_family := AF_UNIX;
                    sun_path := sun_path zero_storage |};
     len_ := to_socklen sizeof_sa_family_t |}.

(** [std::memcpy(dst, src, n)] on character arrays, [n] within both. *)
Definition memcpy (dst src : list Ascii.ascii) (n : nat) : list Ascii.ascii :=
  take n src ++ drop n dst.

Definition from_pathname (path : string) : t :=
  let addr := default in
  let max_path := sizeof_sun_path - 1 in
  let copy_len := Z.min (Z.of_nat (String.length path)) max_path in
  let copied :=
    memcpy (sun_path (storage_ addr)) (list_ascii_of_string path)
      (Z.to_nat copy_len) in
  let terminated := <[Z.to_nat copy_len := Ascii.zero]> copied in
  {| storage_ := {| sun_family := AF_UNIX; sun_path := terminated |};
     len_ := to_socklen (offsetof_sun_path + copy_len + 1) |}.

Definition as_sockaddr (a : t) : sockaddr_un := storage_ a.

Definition len (a : t) : Z := len_ a.

Definition family (a : t) : Z := AF_UNIX.

Definition is_unnamed (a : t) : bool :=
  len_ a <=? to_socklen offsetof_sun_path.

(** The view [{storage_.sun_path, n}]. *)
Definition view (a : t) (n : Z) : string :=
  string_of_list_ascii (take (Z.to_nat n) (sun_path (storage_ a))).

(** [as_pathname]; [None] stands for the read of [sun_path] past its
    end, where [len_] is larger than the storage. *)
Definition as_pathname (a : t) : option string :=
  if is_unnamed a then Some EmptyString
  else
    let path_len := to_socklen (len_ a - to_socklen offsetof_sun_path) in
    if 0 <? path_len then
      match sun_path (storage_ a) !! Z.to_nat (path_len - 1) with
      | None => None
      | Some c =>
          if Ascii.eqb c Ascii.zero then Some (view a (path_len - 1))
          else Some (view a path_len)
      end
    else Some (view a path_len).

Definition to_string (a : t) : option string :=
  if is_unnamed a then Some "(unnamed)"%string
  else as_pathname a.

End unix_addr.

(** ** sys/detail/socket_addr.hpp

    The constants are those of Linux's <netinet/in.h>.  [htons] and
    [htonl] depend on the byte order of the host, which the functions
    here take as an argument; the padding [sin_zero] of [sockaddr_in],
    always zero, is left out. *)

Module socket_addr.

Definition AF_INET : Z := 2.
Definition AF_INET6 : Z := 10.
Definition INADDR_ANY : Z := 0.
Definition INADDR_LOOPBACK : Z := 2130706433.
Definition sizeof_sockaddr_in : Z := 16.
Definition sizeof_sockaddr_in6 : Z := 28.

Record sockaddr_in := mk_sockaddr_in {
  sin_family : Z;
  sin_port : Z;
  s_addr : Z
}.

Record sockaddr_in6 := mk_sockaddr_in6 {
  sin6_family : Z;
  sin6_port : Z;
  sin6_flowinfo : Z;
  sin6_addr : list Z;
  sin6_scope_id : Z
}.

(** [std::variant<sockaddr_in, sockaddr_in6>]. *)
Inductive t : Type :=
| v4 (sa : sockaddr_in)
| v6 (sa : sockaddr_in6).

Inductive byte_order : Type := little_endian | big_endian.

Definition bswap_16 (x : Z) : Z :=
  Z.lor (Z.land (Z.shiftr x 8) 255) (Z.shiftl (Z.land x 255) 8).

Definition bswap_32 (x : Z) : Z :=
  Z.lor
    (Z.lor (Z.shiftr (Z.land x 4278190080) 24)
           (Z.shiftr (Z.land x 16711680) 8))
    (Z.lor (Z.shiftl (Z.land x 65280) 8)
           (Z.shiftl (Z.land x 255) 24)).

Definition htons (host : byte_order) (x : Z) : Z :=
  match host with big_endian => x | little_endian => bswap_16 x end.

Definition ntohs (host : byte_order) (x : Z) : Z :=
  match host with big_endian => x | little_endian => bswap_16 x end.

Definition htonl (host : byte_order) (x : Z) : Z :=
  match host with big_endian => x | little_endian => bswap_32 x end.

(** [IN6ADDR_LOOPBACK_INIT] and [in6addr_any], sixteen bytes each. *)
Definition in6addr_loopback : list Z := replicate 15 0 ++ [1].
Definition in6addr_any : list Z := replicate 16 0.

(** [socket_addr()]: [sockaddr_in{}], every member zero. *)
Definition default : t :=
  v4 {| sin_family := 0; sin_port := 0; s_addr := 0 |}.

Definition ipv4 (host : byte_order) (addr port : Z) : t :=
  v4 {| sin_family := AF_INET;
        sin_port := htons host port;
        s_addr := htonl host addr |}.

Definition ipv4_loopback (host : byte_order) (port : Z) : t :=
  ipv4 host INADDR_LOOPBACK port.

Definition ipv4_any (host : byte_order) (port : Z) : t :=
  ipv4 host INADDR_ANY port.

Definition ipv6_loopback (host : byte_order) (port : Z) : t :=
  v6 {| sin6_family := AF_INET6;
        sin6_port := htons host port;
        sin6_flowinfo := 0;
        sin6_addr := in6addr_loopback;
        sin6_scope_id := 0 |}.

Definition ipv6_any (host : byte_order) (port : Z) : t :=
  v6 {| sin6_family := AF_INET6;
        sin6_port := htons host port;
        sin6_flowinfo := 0;
        sin6_addr := in6addr_any;
        sin6_scope_id := 0 |}.

Definition is_ipv4 (a : t) : bool :=
  match a with v4 _ => true | v6 _ => false end.

Definition is_ipv6 (a : t) : bool :=
  match a with v4 _ => false | v6 _ => true end.

Definition family (a : t) : Z :=
  if is_ipv4 a then AF_INET else AF_INET6.

Definition port (host : byte_order) (a : t) : Z :=
  match a with
  | v4 sa => ntohs host (sin_port sa)
  | v6 sa => ntohs host (sin6_port sa)
  end.

Definition ipv4_addr (a : t) : Z :=
  match a with v4 sa => s_addr sa | v6 _ => 0 end.

Definition ipv6_addr (a : t) : list Z :=
  match a with v4 _ => replicate 16 0 | v6 sa => sin6_addr sa end.

Definition len (a : t) : Z :=
  if is_ipv4 a then sizeof_sockaddr_in else sizeof_sockaddr_in6.

(** The family the object [as_sockaddr] points to stores. *)
Definition stored_family (a : t) : Z :=
  match a with v4 sa => sin_family sa | v6 sa => sin6_family sa end.

End socket_addr.

(** What [as_sockaddr] of either address class points to. *)
Inductive sockaddr : Type :=
| sockaddr_of_in (sa : socket_addr.sockaddr_in)
| sockaddr_of_in6 (sa : socket_addr.sockaddr_in6)
| sockaddr_of_un (sa : unix_addr.sockaddr_un).

Definition socket_addr_as_sockaddr (a : socket_addr.t) : sockaddr :=
  match a with
  | socket_addr.v4 sa => sockaddr_of_in sa
  | socket_addr.v6 sa => sockaddr_of_in6 sa
  end.

Definition unix_addr_as_sockaddr (a : unix_addr.t) : sockaddr :=
  sockaddr_of_un (unix_addr.as_sockaddr a).

(** The first [n] characters of a string. *)
Definition truncated (n : nat) (s : string) : string :=
  string_of_list_ascii (take n (list_ascii_of_string s)).

(** ** The calls of the waker, the pipe endpoints and the sockets

    The waker, the pipe endpoints and the socket classes make calls
    beyond those of the selector.  [Sysx.syscall] adds them to the
    selector's calls; the constants are those of Linux's
    <sys/eventfd.h>, <fcntl.h>, <sys/socket.h> and <errno.h>
    ([SOMAXCONN] that of glibc 2.31 and later). *)

Module Sysx.

Definition EFD_CLOEXEC : Z := 524288.
Definition EFD_NONBLOCK : Z := 2048.
Definition O_NONBLOCK : Z := 2048.
Definition O_CLOEXEC : Z := 524288.

Definition SOCK_STREAM : Z := 1.
Definition SOCK_NONBLOCK : Z := 2048.
Definition SOCK_CLOEXEC : Z := 524288.
Definition SOL_SOCKET : Z := 1.
Definition SO_REUSEADDR : Z := 2.
Definition SOMAXCONN : Z := 4096.
Definition EINPROGRESS : Z := 115.

(** The bit of a flag word that [O_NONBLOCK] is. *)
Definition bit_nonblock : Z := 11.

Inductive syscall : Type :=
| core (c : Sys.syscall)
| eventfd (initval flags : Z)
| write_u64 (fd value : Z)
| read_u64 (fd : Z)
| write (fd : Z) (buf : list Byte.byte)
| read (fd : Z) (count : Z)
| pipe2 (flags : Z)
| fcntl_getfl (fd : Z)
| fcntl_setfl (fd flags : Z)
| socket (domain type protocol : Z)
| setsockopt_int (fd level optname value : Z)
| bind (fd : Z) (addr : sockaddr) (len : Z)
| listen (fd backlog : Z)
| connect (fd : Z) (addr : sockaddr) (len : Z).

(** What a call answers: as for the selector's calls, and besides the
    two descriptors [pipe2] stores in its array (read end first) and the
    bytes [read] stores at the start of the caller's buffer. *)
Record reply := mk_reply {
  answer : Sys.reply;
  ends : Z * Z;
  bytes : list Byte.byte
}.

Class Kernel (K : Type) := sys : K -> syscall -> K * reply.

(** Such a kernel answers the selector's calls too. *)
Definition core_kernel {K} `{Kernel K} : Sys.Kernel K :=
  fun k c => let '(k', r) := sys k (core c) in (k', answer r).

Record world (K : Type) := mk_world {
  kern : K;
  errno : Z;
  trace : list syscall
}.
Arguments mk_world {K} _ _ _.
Arguments kern {K} _.
Arguments errno {K} _.
Arguments trace {K} _.

Definition invoke {K} `{Kernel K} (c : syscall) (w : world K)
  : reply * world K :=
  let '(k', r) := sys (kern w) c in
  (r, {| kern := k';
         errno := if Sys.ret (answer r) <? 0 then Sys.err (answer r)
                  else errno w;
         trace := trace w ++ [c] |}).

Definition last_os_error {K} (w : world K) : error.t :=
  error.mk (errno w).

(** Running code of the selector core in this world: it starts from the
    same kernel and [errno], and the calls it makes are appended to the
    trace. *)
Definition enter {K} (w : world K) : Sys.world K :=
  Sys.mk_world (kern w) (errno w) [].

Definition leave {K} (w : world K) (w' : Sys.world K) : world K :=
  {| kern := Sys.kern w';
     errno := Sys.errno w';
     trace := trace w ++ (core <$> Sys.trace w') |}.

Definition lift_world {K} (f : Sys.world K -> Sys.world K) (w : world K)
  : world K :=
  leave w (f (enter w)).

Definition lift_option {K A}
    (f : Sys.world K -> option (A * Sys.world K)) (w : world K)
  : option (A * world K) :=
  match f (enter w) with
  | Some (a, w') => Some (a, leave w w')
  | None => None
  end.

(** The caller's buffer after [read] stored [data] at its start. *)
Definition store_bytes (data buf : list Byte.byte) : list Byte.byte :=
  take (length buf) data ++ drop (length data) buf.

End Sysx.

(** A kernel that replays answers queued in advance, one per call; with
    nothing queued a call returns 0. *)

Module Replay.
Import Sysx.

Definition returns (n : Z) : reply :=
  {| answer := Sys.returns n; ends := (0, 0); bytes := [] |}.
Definition fails (e : Z) : reply :=
  {| answer := Sys.fails e; ends := (0, 0); bytes := [] |}.
Definition pipe_ends (r w : Z) : reply :=
  {| answer := Sys.returns 0; ends := (r, w); bytes := [] |}.

Definition step (k : list reply) (c : syscall) : list reply * reply :=
  match k with
  | [] => ([], returns 0)
  | r :: rest => (rest, r)
  end.

#[global] Instance kernel : Kernel (list reply) := step.

Definition boot (rs : list reply) : world (list reply) :=
  {| kern := rs; errno := 0; trace := [] |}.

End Replay.

(** ** sys/unix_/eventfd_waker.cpp *)

Module eventfd_waker.
Import Sysx.
#[local] Existing Instance core_kernel.

Record t := mk { fd_ : fd_guard.t }.

Definition raw_fd (self : t) : Z := fd_guard.raw_fd (fd_ self).

(** [eventfd_waker(eventfd_waker&&)]: moves the member. *)
Definition move (other : t) : t * t :=
  let '(g, rest) := fd_guard.move (fd_ other) in
  ({| fd_ := g |}, {| fd_ := rest |}).

(** [~eventfd_waker()]: destroys the member. *)
Definition destroy {K} `{Kernel K} (self : t) (w : world K) : world K :=
  lift_world (fd_guard.destroy (fd_ self)) w.

Definition create {K} `{Kernel K} (w : world K) : result t * world K :=
  let '(r, w1) := invoke (eventfd 0 (Z.lor EFD_CLOEXEC EFD_NONBLOCK)) w in
  let fd := Sys.ret (answer r) in
  if fd <? 0 then (unexpected (last_os_error w1), w1)
  else (value {| fd_ := fd_guard.make fd |}, w1).

Definition wake {K} `{Kernel K} (self : t) (w : world K)
  : void_result * world K :=
  let '(r, w1) := invoke (write_u64 (raw_fd self) 1) w in
  let n := Sys.ret (answer r) in
  if n <? 0 then
    let e := last_os_error w1 in
    if error.is_would_block e then (value tt, w1)
    else (unexpected e, w1)
  else (value tt, w1).

Definition drain {K} `{Kernel K} (self : t) (w : world K) : world K :=
  (invoke (read_u64 (raw_fd self)) w).2.

End eventfd_waker.

(** ** waker.hpp, waker.cpp

    A waker shares one [inner] object among its copies; [wake] and
    [drain] only read it, so a waker is modelled by the [inner] it
    points to. *)

Module waker_impl.
Import Sysx.
#[local] Existing Instance core_kernel.

Record t := mk { inner_ : eventfd_waker.t }.

(** [waker::create]: the local [ew] is destroyed when the function
    returns; on success the [inner] was built from it by a move
    first. *)
Definition create {K} `{Kernel K} (reg : registry.t) (tok : token.t)
    (m : registry.memory) (w : world K)
  : option (result t * world K) :=
  let '(ew, w1) := eventfd_waker.create w in
  match ew with
  | unexpected e => Some (unexpected e, w1)
  | value ew =>
      match lift_option
              (registry.register_fd reg (eventfd_waker.raw_fd ew) tok
                 interest.readable m) w1 with
      | None => None
      | Some (unexpected e, w2) =>
          Some (unexpected e, eventfd_waker.destroy ew w2)
      | Some (value _, w2) =>
          let '(moved, ew') := eventfd_waker.move ew in
          Some (value {| inner_ := moved |}, eventfd_waker.destroy ew' w2)
      end
  end.

Definition wake {K} `{Kernel K} (self : t) (w : world K)
  : void_result * world K :=
  eventfd_waker.wake (inner_ self) w.

Definition drain {K} `{Kernel K} (self : t) (w : world K) : world K :=
  eventfd_waker.drain (inner_ self) w.

End waker_impl.

(** ** unix/pipe.cpp *)

Module pipe.
Import Sysx.
#[local] Existing Instance core_kernel.

Record receiver := mk_receiver { receiver_fd_ : fd_guard.t }.

Definition sender_write {K} `{Kernel K} (self : pipe_sender.t)
    (buf : list Byte.byte) (w : world K) : result Z * world K :=
  let '(r, w1) := invoke (write (pipe_sender.raw_fd self) buf) w in
  let n := Sys.ret (answer r) in
  if n <? 0 then (unexpected (last_os_error w1), w1)
  else (value (Int.to_size_t n), w1).

Definition receiver_read {K} `{Kernel K} (self : receiver)
    (buf : list Byte.byte) (w : world K)
  : result Z * list Byte.byte * world K :=
  let '(r, w1) :=
    invoke (read (fd_guard.raw_fd (receiver_fd_ self))
              (Z.of_nat (length buf))) w in
  let n := Sys.ret (answer r) in
  let buf1 := store_bytes (bytes r) buf in
  if n <? 0 then (unexpected (last_os_error w1), buf1, w1)
  else (value (Int.to_size_t n), buf1, w1).

(** The body [pipe_sender::set_nonblocking] and
    [pipe_receiver::set_nonblocking] share, on the descriptor of
    either. *)
Definition set_nonblocking_on {K} `{Kernel K} (fd : Z) (enable : bool)
    (w : world K) : void_result * world K :=
  let '(r, w1) := invoke (fcntl_getfl fd) w in
  let flags := Sys.ret (answer r) in
  if flags <? 0 then (unexpected (last_os_error w1), w1)
  else
    let new_flags :=
      if enable then Z.lor flags O_NONBLOCK
      else Z.land flags (Z.lnot O_NONBLOCK) in
    let '(r2, w2) := invoke (fcntl_setfl fd new_flags) w1 in
    if Sys.ret (answer r2) <? 0 then (unexpected (last_os_error w2), w2)
    else (value tt, w2).

Definition sender_set_nonblocking {K} `{Kernel K} (self : pipe_sender.t)
    (enable : bool) (w : world K) : void_result * world K :=
  set_nonblocking_on (pipe_sender.raw_fd self) enable w.

Definition receiver_set_nonblocking {K} `{Kernel K} (self : receiver)
    (enable : bool) (w : world K) : void_result * world K :=
  set_nonblocking_on (fd_guard.raw_fd (receiver_fd_ self)) enable w.

Definition make_pipe {K} `{Kernel K} (w : world K)
  : result (pipe_sender.t * receiver) * world K :=
  let '(r, w1) := invoke (pipe2 (Z.lor O_NONBLOCK O_CLOEXEC)) w in
  if Sys.ret (answer r) <? 0 then (unexpected (last_os_error w1), w1)
  else
    (value (pipe_sender.mk (fd_guard.make (ends r).2),
            {| receiver_fd_ := fd_guard.make (ends r).1 |}),
     w1).

(** The destructors of the two endpoints. *)
Definition sender_destroy {K} `{Kernel K} (self : pipe_sender.t)
    (w : world K) : world K :=
  lift_world (fd_guard.destroy (pipe_sender.fd_ self)) w.

Definition receiver_destroy {K} `{Kernel K} (self : receiver)
    (w : world K) : world K :=
  lift_world (fd_guard.destroy (receiver_fd_ self)) w.

End pipe.

(** ** net/tcp_listener.cpp, net/tcp_stream.cpp, unix/unix_listener.cpp

    The functions that open a socket.  The local [guard] is destroyed
    when the function returns, after the returned error was read from
    [errno], or after the returned object was built from it by a
    move. *)

Module net.
Import Sysx.
#[local] Existing Instance core_kernel.

Record tcp_listener := mk_tcp_listener { tcp_listener_fd_ : fd_guard.t }.
Record tcp_stream := mk_tcp_stream { tcp_stream_fd_ : fd_guard.t }.

(** [error::is_in_progress] of error.hpp. *)
Definition is_in_progress (e : error.t) : bool :=
  error.code_ e =? EINPROGRESS.

Definition stream_socket_type : Z :=
  Z.lor (Z.lor SOCK_STREAM SOCK_NONBLOCK) SOCK_CLOEXEC.

Definition tcp_listener_bind {K} `{Kernel K} (addr : socket_addr.t)
    (w : world K) : result tcp_listener * world K :=
  let '(r, w1) :=
    invoke (socket (socket_addr.family addr) stream_socket_type 0) w in
  let fd := Sys.ret (answer r) in
  if fd <? 0 then (unexpected (last_os_error w1), w1)
  else
    let guard := fd_guard.make fd in
    let '(_, w2) := invoke (setsockopt_int fd SOL_SOCKET SO_REUSEADDR 1) w1 in
    let '(rb, w3) :=
      invoke (bind fd (socket_addr_as_sockaddr addr) (socket_addr.len addr))
        w2 in
    if Sys.ret (answer rb) <? 0 then
      let e := last_os_error w3 in
      (unexpected e, lift_world (fd_guard.destroy guard) w3)
    else
      let '(rl, w4) := invoke (listen fd SOMAXCONN) w3 in
      if Sys.ret (answer rl) <? 0 then
        let e := last_os_error w4 in
        (unexpected e, lift_world (fd_guard.destroy guard) w4)
      else
        let '(moved, guard') := fd_guard.move guard in
        (value {| tcp_listener_fd_ := moved |},
         lift_world (fd_guard.destroy guard') w4).

Definition unix_listener_bind {K} `{Kernel K} (addr : unix_addr.t)
    (w : world K) : result unix_listener.t * world K :=
  let '(r, w1) :=
    invoke (socket unix_addr.AF_UNIX stream_socket_type 0) w in
  let fd := Sys.ret (answer r) in
  if fd <? 0 then (unexpected (last_os_error w1), w1)
  else
    let guard := fd_guard.make fd in
    let '(rb, w2) :=
      invoke (bind fd (unix_addr_as_sockaddr addr) (unix_addr.len addr))
        w1 in
    if Sys.ret (answer rb) <? 0 then
      let e := last_os_error w2 in
      (unexpected e, lift_world (fd_guard.destroy guard) w2)
    else
      let '(rl, w3) := invoke (listen fd SOMAXCONN) w2 in
      if Sys.ret (answer rl) <? 0 then
        let e := last_os_error w3 in
        (unexpected e, lift_world (fd_guard.destroy guard) w3)
      else
        let '(moved, guard') := fd_guard.move guard in
        (value (unix_listener.mk moved),
         lift_world (fd_guard.destroy guard') w3).

Definition tcp_stream_connect {K} `{Kernel K} (addr : socket_addr.t)
    (w : world K) : result tcp_stream * world K :=
  let '(r, w1) :=
    invoke (socket (socket_addr.family addr) stream_socket_type 0) w in
  let fd := Sys.ret (answer r) in
  if fd <? 0 then (unexpected (last_os_error w1), w1)
  else
    let guard := fd_guard.make fd in
    let '(rc, w2) :=
      invoke (connect fd (socket_addr_as_sockaddr addr)
                (socket_addr.len addr)) w1 in
    let connected :=
      let '(moved, guard') := fd_guard.move guard in
      (value {| tcp_stream_fd_ := moved |},
       lift_world (fd_guard.destroy guard') w2) in
    if Sys.ret (answer rc) <? 0 then
      let e := last_os_error w2 in
      if negb (is_in_progress e) then
        (unexpected e, lift_world (fd_guard.destroy guard) w2)
      else connected
    else connected.

End net.

(** ** Vocabulary of the statements about these calls *)

(** What the kernel answers to the calls [cs], made in that order from
    the state [k]. *)
Fixpoint answers {K} `{Sysx.Kernel K} (k : K) (cs : list Sysx.syscall)
  : list Sysx.reply :=
  match cs with
  | [] => []
  | c :: cs' => let '(k', r) := Sysx.sys k c in r :: answers k' cs'
  end.

(** The call the destructor of a handle on [fd] makes. *)
Definition closes (fd : Z) : list Sysx.syscall :=
  if 0 <=? fd then [Sysx.core (Sys.close fd)] else [].

(** The flags the library opens an eventfd and a pipe with. *)
Definition eventfd_flags : Z := Z.lor Sysx.EFD_CLOEXEC Sysx.EFD_NONBLOCK.
Definition pipe_flags : Z := Z.lor Sysx.O_NONBLOCK Sysx.O_CLOEXEC.

(** [new_flags] is [flags] with the bit [O_NONBLOCK] set to [enable]
    and every other bit kept. *)
Definition with_nonblocking (enable : bool) (flags new_flags : Z) : Prop :=
  forall i, Z.testbit new_flags i
            = if i =? Sysx.bit_nonblock then enable else Z.testbit flags i.

(** The result of a call that is returned as it is: the error code the
    failed call set, or success. *)
Definition verdict (r : Sysx.reply) : void_result :=
  if Sys.ret (Sysx.answer r) <? 0
  then unexpected (error.mk (Sys.err (Sysx.answer r)))
  else value tt.

(** Whether a call failed, and the error that carries the code it
    set. *)
Definition failed (r : Sysx.reply) : bool :=
  Sys.ret (Sysx.answer r) <? 0.

Definition error_of (r : Sysx.reply) : error.t :=
  error.mk (Sys.err (Sysx.answer r)).
(** * Properties *)

(** ** The repository's unit tests, on the model *)

Section UnitTests.
Import Epoll.

(** test_interest.cpp: default_is_empty, readable, bitwise_or_all,
    raw_value, remove, remove_all. *)
Example interest_default_is_empty :
  interest.is_empty interest.empty = true /\
  interest.is_readable interest.empty = false /\
  interest.is_writable interest.empty = false /\
  interest.is_priority interest.empty = false.
Proof. repeat split; reflexivity. Qed.

Example interest_readable_only :
  interest.is_readable interest.readable = true /\
  interest.is_writable interest.readable = false /\
  interest.is_priority interest.readable = false /\
  interest.is_empty interest.readable = false.
Proof. repeat split; reflexivity. Qed.

Example interest_bitwise_or_all :
  let i := interest.union (interest.union interest.readable
                             interest.writable) interest.priority in
  interest.is_readable i = true /\ interest.is_writable i = true /\
  interest.is_priority i = true /\ interest.raw i = 7.
Proof. repeat split; reflexivity. Qed.

Example interest_remove :
  let i := interest.union interest.readable interest.writable in
  interest.is_readable (interest.remove i interest.writable) = true /\
  interest.is_writable (interest.remove i interest.writable) = false /\
  interest.is_empty (interest.remove i i) = true.
Proof. repeat split; reflexivity. Qed.

(** test_event.cpp: token, is_read_closed_hup, is_read_closed_rdhup,
    is_write_closed_hup, is_write_closed_err, is_priority,
    combined_flags. *)
Example event_token :
  event.tok (event.mk (mk_event 0 42)) = token.make 42.
Proof. reflexivity. Qed.

Example event_closed_flags :
  event.is_read_closed (event.mk (mk_event EPOLLHUP 1)) = true /\
  event.is_read_closed (event.mk (mk_event EPOLLRDHUP 1)) = true /\
  event.is_write_closed (event.mk (mk_event EPOLLHUP 1)) = true /\
  event.is_write_closed (event.mk (mk_event EPOLLERR 1)) = true.
Proof. repeat split; reflexivity. Qed.

Example event_combined_flags :
  let ev := event.mk (mk_event (Z.lor EPOLLIN EPOLLOUT) 1) in
  event.is_readable ev = true /\ event.is_writable ev = true /\
  event.is_error ev = false /\ event.is_priority ev = false.
Proof. repeat split; reflexivity. Qed.

(** test_event.cpp: initial_state, set_len_and_access, clear,
    raw_capacity. *)
Example events_initial_state :
  events.capacity (events.make 128) = 128 /\
  events.size (events.make 128) = 0 /\
  events.is_empty (events.make 128) = true /\
  events.raw_capacity (events.make 256) = 256.
Proof. repeat split; reflexivity. Qed.

Example events_set_len_and_access :
  let filled :=
    events.set_len
      (events.with_buf (events.make 8)
         (epoll_selector.store_events
            [mk_event EPOLLIN 10; mk_event EPOLLOUT 20]
            (events.raw_buf (events.make 8)))) 2 in
  events.size filled = 2 /\
  events.is_empty filled = false /\
  (event.tok <$> events.index filled 0) = Some (token.make 10) /\
  (event.is_readable <$> events.index filled 0) = Some true /\
  (event.tok <$> events.index filled 1) = Some (token.make 20) /\
  (event.is_writable <$> events.index filled 1) = Some true /\
  events.size (events.clear filled) = 0 /\
  (event.tok <$> events.to_list filled) = [token.make 10; token.make 20].
Proof. repeat split; reflexivity. Qed.

(** test_fd_guard.cpp: default_is_invalid, wraps_valid_fd, release,
    move_construct. *)
Example fd_guard_default_is_invalid :
  fd_guard.raw_fd fd_guard.empty = -1 /\
  fd_guard.to_bool fd_guard.empty = false.
Proof. split; reflexivity. Qed.

Example fd_guard_release_and_move :
  fd_guard.raw_fd (fd_guard.make 5) = 5 /\
  fd_guard.to_bool (fd_guard.make 5) = true /\
  fd_guard.release (fd_guard.make 5) = (5, fd_guard.empty) /\
  fd_guard.move (fd_guard.make 5) = (fd_guard.make 5, fd_guard.empty).
Proof. repeat split; reflexivity. Qed.

(** test_fd_guard.cpp: closes_on_destruction, reset, reset_to_invalid,
    seen as the calls made. *)
Example fd_guard_closes :
  Sys.trace (fd_guard.destroy (fd_guard.make 5) (Script.boot [] []))
    = [Sys.close 5] /\
  Sys.trace (fd_guard.destroy fd_guard.empty (Script.boot [] [])) = [] /\
  fd_guard.raw_fd (fd_guard.reset (fd_guard.make 5) 6
                     (Script.boot [] [])).1 = 6 /\
  Sys.trace (fd_guard.reset (fd_guard.make 5) 6 (Script.boot [] [])).2
    = [Sys.close 5] /\
  fd_guard.raw_fd (fd_guard.reset_default (fd_guard.make 5)
                     (Script.boot [] [])).1 = -1.
Proof. repeat split; reflexivity. Qed.

(** test_epoll_selector.cpp: register_and_select_readable, with the
    kernel scripted to report the pipe readable. *)
Example selector_register_and_select_readable :
  let w0 := Script.boot [Script.ok [mk_event EPOLLIN 1]] [] in
  let w1 := (epoll_selector.register_fd demo_selector 10 (token.make 1)
               interest.readable w0).2 in
  let run := epoll_selector.select 1 demo_selector
               (replicate 8 zero_event) 8 (Some 100) w1 in
  run.1.1 = Some (value 1) /\
  (data_u64 <$> run.1.2 !! 0%nat) = Some 1 /\
  (event.is_readable <$> (event.mk <$> run.1.2 !! 0%nat)) = Some true /\
  Sys.trace run.2
    = [Sys.epoll_ctl 3 EPOLL_CTL_ADD 10
         (Some (mk_event (Z.lor EPOLLET (Z.lor EPOLLIN EPOLLRDHUP)) 1));
       Sys.epoll_wait 3 8 100].
Proof. repeat split; reflexivity. Qed.

End UnitTests.


(** ** Flag words *)

Section Bits.

Lemma land_pow2 (a j : Z) :
  0 <= j -> Z.land a (2 ^ j) = if Z.testbit a j then 2 ^ j else 0.
Proof.
  intros Hj. apply Z.bits_inj'. intros n Hn.
  rewrite Z.land_spec, Z.pow2_bits_eqb by lia.
  destruct (Z.eqb_spec j n) as [->|Hne].
  - destruct (Z.testbit a n) eqn:E; simpl.
    + rewrite Z.pow2_bits_eqb by lia. now rewrite Z.eqb_refl.
    + now rewrite Z.bits_0.
  - rewrite andb_false_r. destruct (Z.testbit a j).
    + rewrite Z.pow2_bits_eqb by lia. symmetry. now apply Z.eqb_neq.
    + now rewrite Z.bits_0.
Qed.

Lemma land_pow2_nonzero (a j : Z) :
  0 <= j -> negb (Z.land a (2 ^ j) =? 0) = Z.testbit a j.
Proof.
  intros Hj. rewrite land_pow2 by lia.
  destruct (Z.testbit a j); [|reflexivity].
  assert (0 < 2 ^ j) by (apply Z.pow_pos_nonneg; lia).
  destruct (Z.eqb_spec (2 ^ j) 0); [lia|reflexivity].
Qed.

Lemma land_lor_pow2_nonzero (a i j : Z) :
  0 <= i -> 0 <= j ->
  negb (Z.land a (Z.lor (2 ^ i) (2 ^ j)) =? 0)
  = Z.testbit a i || Z.testbit a j.
Proof.
  intros Hi Hj. rewrite Z.land_lor_distr_r.
  rewrite <- (land_pow2_nonzero a i), <- (land_pow2_nonzero a j) by lia.
  destruct (Z.eqb_spec (Z.lor (Z.land a (2 ^ i)) (Z.land a (2 ^ j))) 0)
    as [E|E].
  - apply Z.lor_eq_0_iff in E as [-> ->]. reflexivity.
  - destruct (Z.eqb_spec (Z.land a (2 ^ i)) 0) as [E1|E1];
      destruct (Z.eqb_spec (Z.land a (2 ^ j)) 0) as [E2|E2];
      try reflexivity.
    exfalso. apply E. rewrite E1, E2. reflexivity.
Qed.

End Bits.

(** ** The event view *)

Section EventView.
Import Epoll.

Lemma is_error_bit (e : event.t) :
  event.is_error e = Z.testbit (events (event.raw e)) bit_err.
Proof. apply land_pow2_nonzero. unfold bit_err. lia. Qed.

Lemma is_read_closed_bits (e : event.t) :
  event.is_read_closed e
  = Z.testbit (events (event.raw e)) bit_hup
    || Z.testbit (events (event.raw e)) bit_rdhup.
Proof.
  apply land_lor_pow2_nonzero; unfold bit_hup, bit_rdhup; lia.
Qed.

Lemma is_write_closed_bits (e : event.t) :
  event.is_write_closed e
  = Z.testbit (events (event.raw e)) bit_hup
    || Z.testbit (events (event.raw e)) bit_err.
Proof.
  apply land_lor_pow2_nonzero; unfold bit_hup, bit_err; lia.
Qed.

(** C9.  For every raw event, [is_read_closed] holds exactly when the
    flag word has the hang-up bit or the read-hang-up bit set, and
    [is_write_closed] exactly when it has the hang-up bit or the error
    bit set; an event whose only flag is the error flag is therefore
    write-closed (and an error, and not read-closed). *)
Theorem closed_predicates_follow_flag_word (e : event.t) :
  (event.is_read_closed e = true <->
     Z.testbit (events (event.raw e)) bit_hup = true \/
     Z.testbit (events (event.raw e)) bit_rdhup = true) /\
  (event.is_write_closed e = true <->
     Z.testbit (events (event.raw e)) bit_hup = true \/
     Z.testbit (events (event.raw e)) bit_err = true) /\
  (forall data,
     let err_only := event.mk (mk_event EPOLLERR data) in
     event.is_write_closed err_only = true /\
     event.is_error err_only = true /\
     event.is_read_closed err_only = false).
Proof.
  rewrite is_read_closed_bits, is_write_closed_bits.
  rewrite !orb_true_iff. repeat split; tauto.
Qed.

End EventView.

(** ** Translating an interest *)

Section Translation.
Import Epoll Sys.
Context {K : Type} `{!Kernel K}.

Lemma interest_to_epoll_bits (i : interest.t) (k : Z) :
  Z.testbit (epoll_selector.interest_to_epoll i) k
  = (k =? bit_et)
    || (interest.is_readable i && ((k =? bit_in) || (k =? bit_rdhup)))
    || (interest.is_writable i && (k =? bit_out))
    || (interest.is_priority i && (k =? bit_pri)).
Proof.
  unfold epoll_selector.interest_to_epoll.
  unfold EPOLLET, EPOLLIN, EPOLLRDHUP, EPOLLOUT, EPOLLPRI.
  unfold bit_et, bit_in, bit_rdhup, bit_out, bit_pri.
  destruct (interest.is_readable i), (interest.is_writable i),
    (interest.is_priority i); cbn [andb orb];
    rewrite ?Z.lor_spec, ?Z.pow2_bits_eqb by lia;
    rewrite ?(Z.eqb_sym k), ?orb_false_r;
    repeat match goal with
      | |- context [?a =? k] => destruct (Z.eqb_spec a k); [subst|]
      end;
    try reflexivity; lia.
Qed.

Lemma ctl_trace (sel : epoll_selector.t) (op fd : Z)
    (ev : option epoll_event) (w : world K) :
  trace (epoll_selector.ctl sel op fd ev w).2
  = trace w ++ [epoll_ctl (epoll_selector.raw_fd sel) op fd ev].
Proof.
  unfold epoll_selector.ctl, invoke.
  destruct (sys (kern w) _) as [k' r]. destruct (ret r <? 0); reflexivity.
Qed.

(** C5.  [register_fd] hands the kernel one add request for [fd] (and
    [reregister_fd] one modify request) carrying an event whose user
    data is the token's value and whose mask has bit [k] set exactly
    when [k] is the edge-triggered bit, or the interest is readable and
    [k] is the input-ready or the read-hang-up bit, or the interest is
    writable and [k] is the output-ready bit, or the interest has
    priority and [k] is the priority bit. *)
Theorem register_hands_over_translated_mask (sel : epoll_selector.t)
    (fd : Z) (tok : token.t) (i : interest.t) (w : world K) :
  exists ev : epoll_event,
    trace (epoll_selector.register_fd sel fd tok i w).2
      = trace w ++
        [epoll_ctl (epoll_selector.raw_fd sel) EPOLL_CTL_ADD fd (Some ev)]
    /\ trace (epoll_selector.reregister_fd sel fd tok i w).2
      = trace w ++
        [epoll_ctl (epoll_selector.raw_fd sel) EPOLL_CTL_MOD fd (Some ev)]
    /\ data_u64 ev = token.value tok
    /\ forall k : Z,
        Z.testbit (events ev) k = true <->
          k = bit_et
          \/ (interest.is_readable i = true
              /\ (k = bit_in \/ k = bit_rdhup))
          \/ (interest.is_writable i = true /\ k = bit_out)
          \/ (interest.is_priority i = true /\ k = bit_pri).
Proof.
  exists (epoll_selector.make_event tok i).
  split; [apply ctl_trace|]. split; [apply ctl_trace|].
  split; [reflexivity|]. intros k. cbn [events epoll_selector.make_event].
  rewrite interest_to_epoll_bits.
  rewrite !orb_true_iff, !andb_true_iff, !orb_true_iff, !Z.eqb_eq.
  tauto.
Qed.

End Translation.

(** ** The descriptor handle *)

Section Handles.
Import Sys.
Context {K : Type} `{!Kernel K}.

Lemma store_ok_insert (s : handles.store) (a : Z) (g : fd_guard.t) :
  store_ok s -> descriptor_or_sentinel (fd_guard.fd_ g) ->
  store_ok (<[a := g]> s).
Proof. intros Hs Hg. apply map_Forall_insert_2; assumption. Qed.

Lemma store_ok_delete (s : handles.store) (a : Z) :
  store_ok s -> store_ok (delete a s).
Proof. intros Hs. apply map_Forall_delete. assumption. Qed.

Lemma sentinel_ok : descriptor_or_sentinel (-1).
Proof. right. reflexivity. Qed.

Lemma step_preserves (o : handles.op) (s s' : handles.store)
    (w w' : world K) :
  Forall descriptor_or_sentinel (handles.adopted o) ->
  store_ok s ->
  handles.step o s w = Some (s', w') ->
  store_ok s'.
Proof.
  intros Ha Hs Hstep.
  destruct o as [this|this fd|this other|this other|this|this fd|this|this];
    cbn in Hstep.
  - destruct (s !! this); simplify_eq.
    apply store_ok_insert; [assumption | apply sentinel_ok].
  - destruct (s !! this); simplify_eq.
    apply store_ok_insert; [assumption|].
    cbn in Ha. inversion Ha; subst. assumption.
  - destruct (s !! this); [discriminate|].
    destruct (s !! other) as [o|] eqn:Eo; simplify_eq.
    apply store_ok_insert;
      [apply store_ok_insert; [assumption | apply sentinel_ok]|].
    cbn. exact (Hs other o Eo).
  - destruct (s !! this) as [g|]; [|discriminate].
    destruct (s !! other) as [o|] eqn:Eo; [|discriminate].
    destruct (bool_decide (this = other)); simplify_eq; [assumption|].
    apply store_ok_insert;
      [apply store_ok_insert; [assumption | apply sentinel_ok]|].
    cbn. exact (Hs other o Eo).
  - destruct (s !! this) as [g|]; simplify_eq.
    apply store_ok_insert; [assumption | apply sentinel_ok].
  - destruct (s !! this) as [g|]; simplify_eq.
    apply store_ok_insert; [assumption|].
    cbn in Ha. inversion Ha; subst. assumption.
  - destruct (s !! this) as [g|]; simplify_eq.
    apply store_ok_insert; [assumption | apply sentinel_ok].
  - destruct (s !! this) as [g|]; simplify_eq.
    apply store_ok_delete. assumption.
Qed.

Lemma run_preserves (os : list handles.op) :
  forall (s s' : handles.store) (w w' : world K),
    Forall (fun o => Forall descriptor_or_sentinel (handles.adopted o)) os ->
    store_ok s ->
    handles.run os s w = Some (s', w') ->
    store_ok s'.
Proof.
  induction os as [|o os IH]; intros s s' w w' Hos Hs Hrun; cbn in Hrun.
  - simplify_eq. assumption.
  - inversion Hos as [|? ? Ho Hos']; subst.
    destruct (handles.step o s w) as [[s1 w1]|] eqn:Estep; [|discriminate].
    eapply IH; [exact Hos' | | exact Hrun].
    eapply step_preserves; eassumption.
Qed.

(** C7, as the code has it.  Whatever sequence of handle operations a
    program performs, if every integer it hands to a constructor or to
    [reset] is a descriptor (>= 0) or the sentinel -1, every live
    handle afterwards holds a descriptor or is empty holding exactly
    -1.  A negative [n] handed to the constructor or to [reset] makes
    the handle empty (its boolean test is false and destroying it
    closes nothing), and the raw accessor then returns [n] itself. *)
Theorem handle_holds_descriptor_or_sentinel (os : list handles.op)
    (w w' : world K) (s' : handles.store) :
  Forall (fun o => Forall descriptor_or_sentinel (handles.adopted o)) os ->
  handles.run os ∅ w = Some (s', w') ->
  (forall (a : Z) (g : fd_guard.t),
      s' !! a = Some g ->
      (fd_guard.to_bool g = true /\ 0 <= fd_guard.raw_fd g) \/
      (fd_guard.to_bool g = false /\ fd_guard.raw_fd g = -1)) /\
  (forall (n : Z) (g : fd_guard.t),
      n < 0 ->
      fd_guard.to_bool (fd_guard.make n) = false /\
      fd_guard.raw_fd (fd_guard.make n) = n /\
      fd_guard.destroy (fd_guard.make n) w = w /\
      fd_guard.to_bool (fd_guard.reset g n w).1 = false /\
      fd_guard.raw_fd (fd_guard.reset g n w).1 = n).
Proof.
  intros Hos Hrun. split.
  - intros a g Hg.
    assert (Hok : store_ok s').
    { eapply run_preserves; [exact Hos | | exact Hrun].
      apply map_Forall_empty. }
    specialize (Hok a g Hg). cbn in Hok.
    unfold fd_guard.to_bool, fd_guard.raw_fd.
    destruct Hok as [Hpos | Hneg].
    + left. split; [apply Z.leb_le|]; assumption.
    + right. rewrite Hneg. split; reflexivity.
  - intros n g Hn.
    unfold fd_guard.to_bool, fd_guard.raw_fd, fd_guard.destroy,
      fd_guard.close_held, fd_guard.make, fd_guard.reset.
    cbn [fd_guard.fd_ fst].
    assert (E : (0 <=? n) = false) by (apply Z.leb_gt; assumption).
    rewrite E. repeat split; reflexivity.
Qed.

End Handles.

(** A handle built from -5 holds -5, which is neither a descriptor nor
    the sentinel; so does a live handle after such a construction or
    after [reset(-5)]. *)
Lemma negative_descriptor_is_kept_verbatim :
  fd_guard.raw_fd (fd_guard.make (-5)) = -5 /\
  fd_guard.raw_fd (fd_guard.make (-5)) <> -1 /\
  (fd_guard.raw_fd (fd_guard.reset (fd_guard.make 3) (-5)
                      (Script.boot [] [])).1 = -5) /\
  (exists s w,
      handles.run [handles.construct_from 100 (-5)] ∅ (Script.boot [] [])
        = Some (s, w) /\
      s !! 100 = Some (fd_guard.mk (-5))).
Proof.
  split; [reflexivity|]. split; [discriminate|]. split; [reflexivity|].
  eexists _, _. split; [reflexivity|]. apply lookup_insert_eq.
Qed.


Lemma handle_holds_descriptor_or_sentinel_witness :
  (exists w',
    handles.run demo_ops ∅ (Script.boot [] [])
      = Some (<[200 := fd_guard.empty]> ∅, w') /\
    Sys.trace w' = [Sys.close 9]) /\
  ((fd_guard.to_bool fd_guard.empty = true /\
    0 <= fd_guard.raw_fd fd_guard.empty) \/
   (fd_guard.to_bool fd_guard.empty = false /\
    fd_guard.raw_fd fd_guard.empty = -1)) /\
  fd_guard.raw_fd (fd_guard.make (-5)) = -5.
Proof.
  assert (E : exists w',
    handles.run demo_ops ∅ (Script.boot [] [])
      = Some (<[200 := fd_guard.empty]> ∅, w') /\
    Sys.trace w' = [Sys.close 9]).
  { eexists. split; vm_compute; reflexivity. }
  split; [exact E|].
  destruct E as (w' & E & _).
  assert (Hos : Forall
            (fun o => Forall descriptor_or_sentinel (handles.adopted o))
            demo_ops).
  { unfold demo_ops, descriptor_or_sentinel. repeat constructor; lia. }
  destruct (handle_holds_descriptor_or_sentinel demo_ops _ _ _ Hos E)
    as [Hinv Hneg].
  split.
  - apply (Hinv 200). apply lookup_insert_eq.
  - destruct (Hneg (-5) fd_guard.empty ltac:(lia)) as (_ & Hr & _).
    exact Hr.
Defined.

(** ** The wait loop *)

Section WaitLoop.
Import Epoll Sys.
Context {K : Type} `{!Kernel K}.

Lemma invoke_trace (c : syscall) (w : world K) :
  trace (invoke c w).2 = trace w ++ [c].
Proof. unfold invoke. destruct (sys (kern w) c). reflexivity. Qed.

Lemma invoke_errno_failed (c : syscall) (w : world K) :
  ret (sys (kern w) c).2 < 0 ->
  errno (invoke c w).2 = err (sys (kern w) c).2.
Proof.
  intros Hret. unfold invoke. destruct (sys (kern w) c) as [k' r].
  cbn in *. apply Z.ltb_lt in Hret. rewrite Hret. reflexivity.
Qed.

Lemma store_events_length (written buf : list epoll_event) :
  length (epoll_selector.store_events written buf) = length buf.
Proof.
  unfold epoll_selector.store_events.
  rewrite length_app, length_take, length_drop. lia.
Qed.

(** What one pass of the loop body does, in terms of the kernel's
    answer. *)
Lemma wait_once_spec (epfd : Z) (buf : list epoll_event)
    (max_events tm : Z) (w : world K) :
  let r := (sys (kern w) (epoll_wait epfd max_events tm)).2 in
  let w1 := (invoke (epoll_wait epfd max_events tm) w).2 in
  epoll_selector.wait_once epfd buf max_events tm w
  = ((ret r, epoll_selector.store_events (out r) buf, w1),
     (ret r <? 0) && (errno w1 =? Errno.EINTR)).
Proof.
  unfold epoll_selector.wait_once, invoke.
  destruct (sys (kern w) _) as [k' r]. reflexivity.
Qed.

Lemma wait_loop_unfold (fuel : nat) (epfd : Z) (buf : list epoll_event)
    (max_events tm : Z) (w : world K) :
  epoll_selector.wait_loop (S fuel) epfd buf max_events tm w
  = let r := (sys (kern w) (epoll_wait epfd max_events tm)).2 in
    let w1 := (invoke (epoll_wait epfd max_events tm) w).2 in
    let buf1 := epoll_selector.store_events (out r) buf in
    if (ret r <? 0) && (errno w1 =? Errno.EINTR)
    then epoll_selector.wait_loop fuel epfd buf1 max_events tm w1
    else (Some (ret r), buf1, w1).
Proof.
  cbn [epoll_selector.wait_loop]. rewrite wait_once_spec. reflexivity.
Qed.

(** Every pass is one wait call with the same arguments, at most [fuel]
    of them and at least one unless [fuel] is zero; the buffer keeps its
    size; the loop is left only on an answer that is not an interrupted
    failure. *)
Lemma wait_loop_spec (fuel : nat) :
  forall (epfd : Z) (buf : list epoll_event) (max_events tm : Z)
         (w : world K) (n : option Z) (buf' : list epoll_event)
         (w' : world K),
    epoll_selector.wait_loop fuel epfd buf max_events tm w
      = (n, buf', w') ->
    (exists calls,
        trace w' = trace w ++ calls /\
        (length calls <= fuel)%nat /\
        (fuel <> O -> calls <> []) /\
        Forall (fun c => c = epoll_wait epfd max_events tm) calls) /\
    length buf' = length buf /\
    (forall v, n = Some v ->
               (v <? 0) && (errno w' =? Errno.EINTR) = false /\
               (wait_bounded K -> 0 <= v -> v <= max_events)).
Proof.
  induction fuel as [|fuel IH]; intros epfd buf max_events tm w n buf' w' E.
  - injection E as <- <- <-. split; [|split].
    + exists []. rewrite app_nil_r.
      repeat split; [cbn; lia | congruence | constructor].
    + reflexivity.
    + discriminate.
  - rewrite wait_loop_unfold in E. cbv zeta in E.
    destruct ((ret (sys (kern w) (epoll_wait epfd max_events tm)).2 <? 0)
              && (errno (invoke (epoll_wait epfd max_events tm) w).2
                  =? Errno.EINTR)) eqn:Eagain.
    + apply IH in E
        as ((calls & Htr & Hlen & _ & Hall) & Hbuf & Hexit).
      split; [|split].
      * exists (epoll_wait epfd max_events tm :: calls).
        split; [|split; [|split]].
        -- rewrite Htr, invoke_trace, <- app_assoc. reflexivity.
        -- cbn. lia.
        -- discriminate.
        -- constructor; [reflexivity | assumption].
      * rewrite Hbuf. apply store_events_length.
      * assumption.
    + injection E as <- <- <-. split; [|split].
      * exists [epoll_wait epfd max_events tm].
        split; [apply invoke_trace|].
        split; [cbn; lia|].
        split; [discriminate|]. constructor; [reflexivity | constructor].
      * apply store_events_length.
      * intros v [= <-]. split; [assumption|].
        intros Hb Hn. apply Hb. assumption.
Qed.

(** An interrupted wait is followed by another pass. *)
Lemma wait_loop_retry (fuel : nat) (epfd : Z) (buf : list epoll_event)
    (max_events tm : Z) (w : world K) :
  ret (sys (kern w) (epoll_wait epfd max_events tm)).2 < 0 ->
  err (sys (kern w) (epoll_wait epfd max_events tm)).2 = Errno.EINTR ->
  epoll_selector.wait_loop (S fuel) epfd buf max_events tm w
  = epoll_selector.wait_loop fuel epfd
      (epoll_selector.store_events
         (out (sys (kern w) (epoll_wait epfd max_events tm)).2) buf)
      max_events tm
      (invoke (epoll_wait epfd max_events tm) w).2.
Proof.
  intros Hret Herr. rewrite wait_loop_unfold. cbv zeta.
  rewrite invoke_errno_failed by assumption. rewrite Herr.
  apply Z.ltb_lt in Hret. rewrite Hret. reflexivity.
Qed.

(** An answer that is not an interrupted failure ends the loop. *)
Lemma wait_loop_done (fuel : nat) (epfd : Z) (buf : list epoll_event)
    (max_events tm : Z) (w : world K) :
  (0 <= ret (sys (kern w) (epoll_wait epfd max_events tm)).2 \/
   err (sys (kern w) (epoll_wait epfd max_events tm)).2 <> Errno.EINTR) ->
  epoll_selector.wait_loop (S fuel) epfd buf max_events tm w
  = (Some (ret (sys (kern w) (epoll_wait epfd max_events tm)).2),
     epoll_selector.store_events
       (out (sys (kern w) (epoll_wait epfd max_events tm)).2) buf,
     (invoke (epoll_wait epfd max_events tm) w).2).
Proof.
  intros Hr. rewrite wait_loop_unfold. cbv zeta.
  destruct (Z.ltb_spec
              (ret (sys (kern w) (epoll_wait epfd max_events tm)).2) 0)
    as [Hneg|Hpos]; [|reflexivity].
  destruct Hr as [Hr|Hr]; [lia|].
  rewrite invoke_errno_failed by assumption.
  apply Z.eqb_neq in Hr. rewrite Hr. reflexivity.
Qed.

(** The bound is only a bound: a loop that was left keeps its answer
    under any larger bound, and a loop that was still waiting goes on
    from where it stood. *)
Lemma wait_loop_more_fuel (fuel : nat) :
  forall (extra : nat) (epfd : Z) (buf : list epoll_event)
         (max_events tm : Z) (w : world K) (n : option Z)
         (buf' : list epoll_event) (w' : world K),
    epoll_selector.wait_loop fuel epfd buf max_events tm w
      = (n, buf', w') ->
    epoll_selector.wait_loop (fuel + extra) epfd buf max_events tm w
    = match n with
      | Some v => (Some v, buf', w')
      | None => epoll_selector.wait_loop extra epfd buf' max_events tm w'
      end.
Proof.
  induction fuel as [|fuel IH];
    intros extra epfd buf max_events tm w n buf' w' E.
  - injection E as <- <- <-. reflexivity.
  - change (S fuel + extra)%nat with (S (fuel + extra)).
    rewrite wait_loop_unfold in E |- *. cbv zeta in E |- *.
    destruct ((ret (sys (kern w) (epoll_wait epfd max_events tm)).2 <? 0)
              && (errno (invoke (epoll_wait epfd max_events tm) w).2
                  =? Errno.EINTR)).
    + apply IH. exact E.
    + injection E as <- <- <-. reflexivity.
Qed.

Lemma select_inv (fuel : nat) (sel : epoll_selector.t)
    (buf : list epoll_event) (max_events : Z) (timeout : option Z)
    (w : world K) (res : option (result Z)) (buf' : list epoll_event)
    (w' : world K) :
  epoll_selector.select fuel sel buf max_events timeout w
    = (res, buf', w') ->
  exists n,
    epoll_selector.wait_loop fuel (epoll_selector.raw_fd sel) buf
      max_events (epoll_selector.timeout_ms timeout) w
    = (n, buf', w') /\
    res = match n with
          | None => None
          | Some v => Some (if v <? 0 then unexpected (last_os_error w')
                            else value v)
          end.
Proof.
  unfold epoll_selector.select. intros E.
  destruct (epoll_selector.wait_loop _ _ _ _ _ _) as [[n b] w1].
  exists n. destruct n as [v|].
  - destruct (v <? 0); injection E as <- <- <-; split; reflexivity.
  - injection E as <- <- <-. split; reflexivity.
Qed.

End WaitLoop.

(** ** select *)

Section Select.
Import Epoll Sys.
Context {K : Type} `{!Kernel K}.

Lemma to_int_fits (t : Z) : Int.is_int t -> Int.to_int t = t.
Proof.
  unfold Int.is_int, Int.int_min, Int.int_max, Int.to_int. intros Ht.
  rewrite Z.mod_small; lia.
Qed.

Lemma select_trace (fuel : nat) (sel : epoll_selector.t)
    (buf : list epoll_event) (max_events : Z) (timeout : option Z)
    (w : world K) :
  exists calls,
    trace (epoll_selector.select fuel sel buf max_events timeout w).2
      = trace w ++ calls /\
    (length calls <= fuel)%nat /\
    (fuel <> O -> calls <> []) /\
    Forall
      (fun c => c = epoll_wait (epoll_selector.raw_fd sel) max_events
                      (epoll_selector.timeout_ms timeout))
      calls.
Proof.
  destruct (epoll_selector.select fuel sel buf max_events timeout w)
    as [[res buf'] w'] eqn:E.
  apply select_inv in E as (n & E & _).
  apply wait_loop_spec in E as (Hcalls & _). exact Hcalls.
Qed.

Lemma select_failed_errno (fuel : nat) (sel : epoll_selector.t)
    (buf : list epoll_event) (max_events : Z) (timeout : option Z)
    (w : world K) :
  ret (sys (kern w)
         (epoll_wait (epoll_selector.raw_fd sel) max_events
            (epoll_selector.timeout_ms timeout))).2 < 0 ->
  err (sys (kern w)
         (epoll_wait (epoll_selector.raw_fd sel) max_events
            (epoll_selector.timeout_ms timeout))).2 <> Errno.EINTR ->
  epoll_selector.select (S fuel) sel buf max_events timeout w
  = (Some (unexpected
             (error.mk
                (err (sys (kern w)
                        (epoll_wait (epoll_selector.raw_fd sel) max_events
                           (epoll_selector.timeout_ms timeout))).2))),
     epoll_selector.store_events
       (out (sys (kern w)
               (epoll_wait (epoll_selector.raw_fd sel) max_events
                  (epoll_selector.timeout_ms timeout))).2) buf,
     (invoke
        (epoll_wait (epoll_selector.raw_fd sel) max_events
           (epoll_selector.timeout_ms timeout)) w).2).
Proof.
  intros Hret Herr. unfold epoll_selector.select.
  rewrite wait_loop_done by (right; assumption).
  unfold last_os_error. rewrite invoke_errno_failed by assumption.
  apply Z.ltb_lt in Hret. rewrite Hret. reflexivity.
Qed.

(** C2, as the code has it.  Every wait call [select] makes is handed
    -1 for an absent timeout and, for a present timeout of [t]
    milliseconds, [t] converted to [int]: [t] itself whenever it fits,
    negative or not. *)
Theorem select_hands_over_converted_timeout (fuel : nat)
    (sel : epoll_selector.t) (buf : list epoll_event) (max_events : Z)
    (timeout : option Z) (w : world K) :
  exists (calls : list syscall) (tm : Z),
    trace (epoll_selector.select (S fuel) sel buf max_events timeout w).2
      = trace w ++ calls /\
    calls <> [] /\
    Forall
      (fun c => c = epoll_wait (epoll_selector.raw_fd sel) max_events tm)
      calls /\
    match timeout with
    | None => tm = -1
    | Some t => tm = Int.to_int t /\ (Int.is_int t -> tm = t)
    end.
Proof.
  destruct (select_trace (S fuel) sel buf max_events timeout w)
    as (calls & Htr & _ & Hne & Hall).
  exists calls, (epoll_selector.timeout_ms timeout).
  split; [exact Htr|]. split; [apply Hne; discriminate|].
  split; [exact Hall|].
  destruct timeout as [t|]; cbn; [|reflexivity].
  split; [reflexivity | apply to_int_fits].
Qed.

Lemma after_waits_trace (k : nat) :
  forall (epfd : Z) (buf : list epoll_event) (max_events tm : Z)
         (w : world K),
    trace (after_waits k epfd buf max_events tm w).2
    = trace w ++ replicate k (epoll_wait epfd max_events tm).
Proof.
  induction k as [|k IH]; intros epfd buf max_events tm w.
  - cbn. now rewrite app_nil_r.
  - cbn [after_waits replicate]. rewrite IH, invoke_trace, <- app_assoc.
    reflexivity.
Qed.

Lemma interrupted_dec (r : reply) : {interrupted r} + {~ interrupted r}.
Proof.
  unfold interrupted.
  destruct (Z_lt_dec (ret r) 0) as [Hneg|Hpos];
    [|right; intros [? _]; contradiction].
  destruct (Z.eq_dec (err r) Errno.EINTR) as [Heq|Hne];
    [left; split; assumption | right; intros [_ ?]; contradiction].
Qed.

(** What [select] returns, by the kernel's answers to its wait calls:
    the verdict of the first wait that is not interrupted, after
    exactly the calls up to that one; or nothing yet, when every wait
    the bound allows was interrupted. *)
Lemma select_outcome (fuel : nat) :
  forall (sel : epoll_selector.t) (buf : list epoll_event)
         (max_events : Z) (timeout : option Z) (w : world K),
    let epfd := epoll_selector.raw_fd sel in
    let tm := epoll_selector.timeout_ms timeout in
    let reply_at j :=
      wait_reply epfd max_events tm
        (after_waits j epfd buf max_events tm w).2 in
    (exists k,
        (k < fuel)%nat /\
        (forall j, (j < k)%nat -> interrupted (reply_at j)) /\
        ~ interrupted (reply_at k) /\
        (epoll_selector.select fuel sel buf max_events timeout w).1.1
        = Some (if ret (reply_at k) <? 0
                then unexpected (error.mk (err (reply_at k)))
                else value (ret (reply_at k))) /\
        trace (epoll_selector.select fuel sel buf max_events timeout w).2
        = trace w ++ replicate (S k) (epoll_wait epfd max_events tm))
    \/
    ((forall j, (j < fuel)%nat -> interrupted (reply_at j)) /\
     (epoll_selector.select fuel sel buf max_events timeout w).1.1 = None /\
     trace (epoll_selector.select fuel sel buf max_events timeout w).2
     = trace w ++ replicate fuel (epoll_wait epfd max_events tm)).
Proof.
  induction fuel as [|fuel IH]; intros sel buf max_events timeout w;
    cbv zeta.
  - right. split; [intros j Hj; lia|].
    split; [reflexivity | cbn; now rewrite app_nil_r].
  - destruct (interrupted_dec
                (wait_reply (epoll_selector.raw_fd sel) max_events
                   (epoll_selector.timeout_ms timeout) w))
      as [Hint|Hnot].
    + destruct Hint as [Hret Herr]. unfold wait_reply in Hret, Herr.
      assert (Estep :
        epoll_selector.select (S fuel) sel buf max_events timeout w
        = epoll_selector.select fuel sel
            (epoll_selector.store_events
               (out (wait_reply (epoll_selector.raw_fd sel) max_events
                       (epoll_selector.timeout_ms timeout) w)) buf)
            max_events timeout
            (invoke (epoll_wait (epoll_selector.raw_fd sel) max_events
                       (epoll_selector.timeout_ms timeout)) w).2).
      { unfold epoll_selector.select.
        rewrite wait_loop_retry by assumption. reflexivity. }
      rewrite Estep.
      destruct (IH sel
                  (epoll_selector.store_events
                     (out (wait_reply (epoll_selector.raw_fd sel)
                             max_events
                             (epoll_selector.timeout_ms timeout) w)) buf)
                  max_events timeout
                  (invoke (epoll_wait (epoll_selector.raw_fd sel)
                             max_events
                             (epoll_selector.timeout_ms timeout)) w).2)
        as [(k & Hk & Hfirst & Hlast & Hres & Htr) | (Hall & Hres & Htr)].
      * left. exists (S k). split; [lia|].
        split; [|split; [exact Hlast|split; [exact Hres|]]].
        -- intros [|j] Hj; [split; assumption|].
           apply Hfirst. lia.
        -- rewrite Htr, invoke_trace, <- app_assoc. reflexivity.
      * right. split; [|split; [exact Hres|]].
        -- intros [|j] Hj; [split; assumption|].
           apply Hall. lia.
        -- rewrite Htr, invoke_trace, <- app_assoc. reflexivity.
    + left. exists O. split; [lia|].
      split; [intros j Hj; lia|]. split; [exact Hnot|].
      cbn [after_waits snd].
      assert (Hdone :
        0 <= ret (sys (kern w)
                    (epoll_wait (epoll_selector.raw_fd sel) max_events
                       (epoll_selector.timeout_ms timeout))).2 \/
        err (sys (kern w)
               (epoll_wait (epoll_selector.raw_fd sel) max_events
                  (epoll_selector.timeout_ms timeout))).2
        <> Errno.EINTR).
      { destruct (Z_lt_dec
                    (ret (sys (kern w)
                            (epoll_wait (epoll_selector.raw_fd sel)
                               max_events
                               (epoll_selector.timeout_ms timeout))).2) 0)
          as [Hneg|Hpos]; [|left; lia].
        right. intros Heq. apply Hnot. split; assumption. }
      unfold epoll_selector.select.
      rewrite wait_loop_done by exact Hdone.
      unfold wait_reply.
      destruct (Z.ltb_spec
                  (ret (sys (kern w)
                          (epoll_wait (epoll_selector.raw_fd sel)
                             max_events
                             (epoll_selector.timeout_ms timeout))).2) 0)
        as [Hneg|Hpos]; cbn [fst snd].
      * unfold last_os_error. rewrite invoke_errno_failed by assumption.
        split; [reflexivity|]. rewrite invoke_trace. reflexivity.
      * split; [reflexivity|]. rewrite invoke_trace. reflexivity.
Qed.

(** C3, as the code has it.  With a capacity of zero [select] does not
    return on its own: it makes at least one wait call, each with
    [max_events = 0] and the timeout, and what it returns is the
    kernel's verdict on the first of these calls that is not
    interrupted: that call's count, which is zero when the kernel
    delivers at most [max_events] events, or the OS error carrying the
    code that call set.  While the bound on the number of waits is not
    exhausted nothing else is returned, and when it is, every wait made
    was interrupted.  On a kernel that fails such a wait with EINVAL,
    [select] makes one call and returns that error. *)
Theorem select_with_zero_capacity_asks_kernel (fuel : nat)
    (sel : epoll_selector.t) (buf : list epoll_event)
    (timeout : option Z) (w : world K) :
  let epfd := epoll_selector.raw_fd sel in
  let tm := epoll_selector.timeout_ms timeout in
  let reply_at j :=
    wait_reply epfd 0 tm (after_waits j epfd buf 0 tm w).2 in
  ((exists k,
       (k <= fuel)%nat /\
       (forall j, (j < k)%nat -> interrupted (reply_at j)) /\
       ~ interrupted (reply_at k) /\
       (epoll_selector.select (S fuel) sel buf 0 timeout w).1.1
       = Some (if ret (reply_at k) <? 0
               then unexpected (error.mk (err (reply_at k)))
               else value (ret (reply_at k))) /\
       trace (epoll_selector.select (S fuel) sel buf 0 timeout w).2
       = trace w ++ replicate (S k) (epoll_wait epfd 0 tm) /\
       (wait_bounded K -> 0 <= ret (reply_at k) -> ret (reply_at k) = 0))
   \/
   ((forall j, (j <= fuel)%nat -> interrupted (reply_at j)) /\
    (epoll_selector.select (S fuel) sel buf 0 timeout w).1.1 = None /\
    trace (epoll_selector.select (S fuel) sel buf 0 timeout w).2
    = trace w ++ replicate (S fuel) (epoll_wait epfd 0 tm))) /\
  (rejects_empty_wait K ->
   (epoll_selector.select (S fuel) sel buf 0 timeout w).1.1
     = Some (unexpected (error.mk Errno.EINVAL)) /\
   trace (epoll_selector.select (S fuel) sel buf 0 timeout w).2
     = trace w ++
       [epoll_wait (epoll_selector.raw_fd sel) 0
          (epoll_selector.timeout_ms timeout)]).
Proof.
  cbv zeta. split.
  - destruct (select_outcome (S fuel) sel buf 0 timeout w)
      as [(k & Hk & Hfirst & Hlast & Hres & Htr) | (Hall & Hres & Htr)].
    + left. exists k. split; [lia|].
      split; [exact Hfirst|]. split; [exact Hlast|].
      split; [exact Hres|]. split; [exact Htr|].
      intros Hb Hpos. unfold wait_reply in *.
      specialize (Hb _ _ _ _ Hpos). lia.
    + right. split; [|split; [exact Hres | exact Htr]].
      intros j Hj. apply Hall. lia.
  - intros Hrej.
    destruct (Hrej (kern w) (epoll_selector.raw_fd sel)
                (epoll_selector.timeout_ms timeout)) as [Hret Herr].
    rewrite select_failed_errno
      by (try assumption; rewrite Herr;
          unfold Errno.EINVAL, Errno.EINTR; lia).
    cbn [fst snd]. rewrite Herr. split; [reflexivity | apply invoke_trace].
Qed.

(** C6.  An error returned by [select] is never the interrupted one.
    Pass by pass: a wait that fails with EINTR is followed by another
    wait with the same arguments, and any other answer is returned, as
    the count when it is non-negative and as the OS error otherwise.
    Once [select] has returned under some bound on the number of waits,
    it returns the same under every larger bound. *)
Theorem select_retries_interrupted_wait (fuel : nat)
    (sel : epoll_selector.t) (buf : list epoll_event) (max_events : Z)
    (timeout : option Z) (w : world K) :
  let call := epoll_wait (epoll_selector.raw_fd sel) max_events
                (epoll_selector.timeout_ms timeout) in
  let r := (sys (kern w) call).2 in
  let w1 := (invoke call w).2 in
  let buf1 := epoll_selector.store_events (out r) buf in
  (forall e,
      (epoll_selector.select fuel sel buf max_events timeout w).1.1
        = Some (unexpected e) ->
      error.is_interrupted e = false)
  /\ (ret r < 0 -> err r = Errno.EINTR ->
      epoll_selector.select (S fuel) sel buf max_events timeout w
      = epoll_selector.select fuel sel buf1 max_events timeout w1)
  /\ (ret r < 0 -> err r <> Errno.EINTR ->
      epoll_selector.select (S fuel) sel buf max_events timeout w
      = (Some (unexpected (error.mk (err r))), buf1, w1))
  /\ (0 <= ret r ->
      epoll_selector.select (S fuel) sel buf max_events timeout w
      = (Some (value (ret r)), buf1, w1))
  /\ (forall res extra,
      (epoll_selector.select fuel sel buf max_events timeout w).1.1
        = Some res ->
      epoll_selector.select (fuel + extra) sel buf max_events timeout w
      = epoll_selector.select fuel sel buf max_events timeout w).
Proof.
  cbv zeta. split; [|split; [|split; [|split]]].
  - intros e Hres.
    destruct (epoll_selector.select fuel sel buf max_events timeout w)
      as [[res buf'] w'] eqn:E.
    cbn in Hres. subst res.
    apply select_inv in E as ([v|] & E & Hres); [|discriminate].
    apply wait_loop_spec in E as (_ & _ & Hexit).
    destruct (Hexit v eq_refl) as [Hnot _].
    destruct (v <? 0); [|discriminate].
    injection Hres as ->. exact Hnot.
  - intros Hret Herr. unfold epoll_selector.select.
    rewrite wait_loop_retry by assumption. reflexivity.
  - intros Hret Herr. apply select_failed_errno; assumption.
  - intros Hret. unfold epoll_selector.select.
    rewrite wait_loop_done by (left; assumption).
    apply Z.ltb_ge in Hret. rewrite Hret. reflexivity.
  - intros res extra Hres. unfold epoll_selector.select in Hres |- *.
    destruct (epoll_selector.wait_loop fuel _ _ _ _ _)
      as [[n b] w'] eqn:E.
    rewrite (wait_loop_more_fuel fuel extra _ _ _ _ _ _ _ _ E).
    destruct n as [v|]; [reflexivity|]. discriminate.
Qed.

End Select.

(** *** Runs on the scripted kernel *)

(** A present timeout of -5 ms reaches the kernel as -5, and a present
    timeout of -1 ms reaches it as -1, the indefinite wait. *)
Lemma negative_timeout_reaches_kernel :
  (exists w',
      epoll_selector.select 1 demo_selector [] 8 (Some (-5))
        (Script.boot [] [])
      = (Some (value 0), [], w') /\
      Sys.wait_timeouts (Sys.trace w') = [-5] /\
      ~ Forall (fun t => 0 <= t) (Sys.wait_timeouts (Sys.trace w'))) /\
  (exists w',
      epoll_selector.select 1 demo_selector [] 8 (Some (-1))
        (Script.boot [] [])
      = (Some (value 0), [], w') /\
      Sys.wait_timeouts (Sys.trace w') = [-1]).
Proof.
  split.
  - eexists. split; [vm_compute; reflexivity|].
    split; [reflexivity|].
    intros H. inversion H as [|? ? H0 _]. lia.
  - eexists. split; [vm_compute; reflexivity|]. reflexivity.
Qed.

(** With a capacity of zero and a kernel that checks [maxevents] as
    Linux does, [select] reports EINVAL, for an absent timeout and for a
    present one. *)
Lemma zero_capacity_select_fails :
  (exists w',
      epoll_selector.select 1 demo_selector [] 0 None (Script.boot [] [])
      = (Some (unexpected (error.mk Errno.EINVAL)), [], w') /\
      Sys.trace w' = [Sys.epoll_wait 3 0 (-1)]) /\
  (exists w',
      epoll_selector.select 1 demo_selector [] 0 (Some 100)
        (Script.boot [] [])
      = (Some (unexpected (error.mk Errno.EINVAL)), [], w') /\
      Sys.trace w' = [Sys.epoll_wait 3 0 100]).
Proof.
  split; eexists; split; vm_compute; reflexivity.
Qed.

Lemma script_rejects_empty_wait : rejects_empty_wait Script.t.
Proof. intros k epfd timeout. split; [cbn; lia | reflexivity]. Qed.

Lemma script_wait_bounded : Sys.wait_bounded Script.t.
Proof.
  intros k epfd maxevents timeout. unfold Sys.sys, Script.kernel, Script.step.
  destruct (Z.leb_spec maxevents 0) as [Hle|Hgt]; [cbn; lia|].
  destruct (Script.waits k) as [|[evs|e] rest]; cbn; try lia.
  intros _. rewrite length_take. lia.
Qed.

Lemma select_with_zero_capacity_asks_kernel_witness :
  (epoll_selector.select 1 demo_selector [] 0 (Some 100)
     (Script.boot [] [])).1.1
  = Some (unexpected (error.mk Errno.EINVAL)) /\
  Sys.trace (epoll_selector.select 1 demo_selector [] 0 (Some 100)
               (Script.boot [] [])).2
  = [Sys.epoll_wait 3 0 100].
Proof.
  destruct (select_with_zero_capacity_asks_kernel 0 demo_selector []
              (Some 100) (Script.boot [] [])) as (_ & H).
  exact (H script_rejects_empty_wait).
Defined.

Lemma select_retries_interrupted_wait_witness :
  epoll_selector.select 3 demo_selector [] 8 None
    (Script.boot
       [Script.fail Errno.EINTR; Script.fail Errno.EINTR;
        Script.fail Errno.EBADF] [])
  = (Some (unexpected (error.mk Errno.EBADF)), [],
     Sys.mk_world (Script.mk [] []) Errno.EBADF
       [Sys.epoll_wait 3 8 (-1); Sys.epoll_wait 3 8 (-1);
        Sys.epoll_wait 3 8 (-1)]) /\
  error.is_interrupted (error.mk Errno.EBADF) = false /\
  epoll_selector.select 3 demo_selector [] 8 None
    (Script.boot
       [Script.fail Errno.EINTR; Script.fail Errno.EINTR;
        Script.fail Errno.EBADF] [])
  = epoll_selector.select 2 demo_selector [] 8 None
      (Sys.invoke (Sys.epoll_wait 3 8 (-1))
         (Script.boot
            [Script.fail Errno.EINTR; Script.fail Errno.EINTR;
             Script.fail Errno.EBADF] [])).2.
Proof.
  pose proof (select_retries_interrupted_wait 2 demo_selector [] 8 None
                (Script.boot
                   [Script.fail Errno.EINTR; Script.fail Errno.EINTR;
                    Script.fail Errno.EBADF] [])) as H.
  cbv zeta in H. destruct H as (_ & Hretry & _).
  pose proof (select_retries_interrupted_wait 3 demo_selector [] 8 None
                (Script.boot
                   [Script.fail Errno.EINTR; Script.fail Errno.EINTR;
                    Script.fail Errno.EBADF] [])) as H.
  cbv zeta in H. destruct H as (Hnever & _).
  split; [|split].
  - vm_compute. reflexivity.
  - apply Hnever. vm_compute. reflexivity.
  - apply Hretry; [cbn; lia | reflexivity].
Defined.

(** ** The event batch and poll *)

Section Batch.
Import Epoll Sys.
Context {K : Type} `{!Kernel K}.

Lemma to_int_le (c : Z) : 0 <= c -> Int.to_int c <= c.
Proof.
  intros Hc. unfold Int.to_int.
  assert (H : (c + 2 ^ 31) mod 2 ^ 32 <= c + 2 ^ 31)
    by (apply Z.mod_le; lia).
  lia.
Qed.

(** C10.  Indexing a batch looks at the buffer alone: for every index
    below the capacity it yields a view of that slot, whatever the
    length and capacity fields hold (set the length to anything, or
    clear the batch, and the answer is the same); a slot of a fresh
    batch, which no poll has filled, reads as the zero event. *)
Theorem indexing_ignores_length (evs : events.t) (i : Z) :
  events.wf evs -> 0 <= i < events.capacity evs ->
  exists slot : epoll_event,
    events.raw_buf evs !! Z.to_nat i = Some slot /\
    events.index evs i = Some (event.mk slot) /\
    (forall len cap,
        events.index (events.mk (events.raw_buf evs) cap len) i
        = Some (event.mk slot)) /\
    (forall len, events.index (events.set_len evs len) i
                 = Some (event.mk slot)) /\
    events.index (events.clear evs) i = Some (event.mk slot) /\
    events.index (events.make (events.capacity evs)) i
      = Some (event.mk zero_event).
Proof.
  intros [Hcap Hlen] Hi. unfold events.capacity in *.
  destruct (events.raw_buf evs !! Z.to_nat i) as [slot|] eqn:Eslot.
  - exists slot. split; [reflexivity|].
    assert (Ei : (i <? 0) = false) by (apply Z.ltb_ge; lia).
    unfold events.index, events.clear, events.set_len, events.raw_buf in *.
    cbn [events.buf_]. rewrite Ei, Eslot.
    repeat split; try reflexivity.
    cbn [events.make events.buf_].
    rewrite lookup_replicate_2 by lia. reflexivity.
  - apply lookup_ge_None in Eslot. unfold events.raw_buf in Eslot. lia.
Qed.

(** C4.  [do_poll] forgets the previous length first.  Whatever
    [select] returns on the batch's buffer and capacity, [do_poll]
    returns with it: on a count [n] the batch length is [n], with
    [0 <= n <= capacity] when the kernel delivers at most [max_events]
    events; on an error [do_poll] returns that error and the batch
    length is zero (as it is while [select] is still waiting). *)
Theorem do_poll_sets_batch_length (fuel : nat) (p : poll.t)
    (evs : events.t) (timeout : option Z) (w : world K)
    (sr : option (result Z)) (buf : list epoll_event) (w' : world K) :
  wait_bounded K -> events.wf evs ->
  epoll_selector.select fuel (poll.sel_ p) (events.raw_buf evs)
    (events.raw_capacity evs) timeout w = (sr, buf, w') ->
  exists (r : option void_result) (evs' : events.t),
    poll.do_poll fuel p evs timeout w = (r, evs', w') /\
    events.wf evs' /\ events.capacity evs' = events.capacity evs /\
    match sr with
    | Some (value n) =>
        r = Some (value tt) /\ events.size evs' = n /\
        0 <= n <= events.capacity evs'
    | Some (unexpected e) =>
        r = Some (unexpected e) /\ events.size evs' = 0
    | None =>
        r = None /\ events.size evs' = 0
    end.
Proof.
  intros HK [Hcap Hlen] E.
  unfold poll.do_poll.
  change (events.raw_buf (events.clear evs)) with (events.raw_buf evs).
  change (events.raw_capacity (events.clear evs))
    with (events.raw_capacity evs).
  rewrite E.
  apply select_inv in E as (n & E & Hres).
  apply wait_loop_spec in E as (_ & Hbuf & Hexit).
  assert (Hwf : forall l,
             events.wf (events.set_len
                          (events.with_buf (events.clear evs) buf) l)).
  { intros l. split; cbn; [exact Hcap|].
    rewrite Hbuf. exact Hlen. }
  destruct n as [v|]; subst sr.
  - destruct (Hexit v eq_refl) as [_ Hb].
    destruct (Z.ltb_spec v 0) as [Hv|Hv].
    + eexists _, _. split; [reflexivity|].
      split; [apply (Hwf 0)|]. split; [reflexivity|].
      split; reflexivity.
    + eexists _, _. split; [reflexivity|].
      split; [apply Hwf|]. split; [reflexivity|].
      specialize (Hb HK Hv). unfold events.raw_capacity in Hb.
      unfold Int.is_size_t in Hcap.
      assert (Hle : Int.to_int (events.capacity_ evs) <= events.capacity_ evs)
        by (apply to_int_le; lia).
      split; [reflexivity|]. cbn. unfold Int.to_size_t.
      rewrite Z.mod_small by lia. split; [reflexivity | lia].
  - eexists _, _. split; [reflexivity|].
    split; [apply (Hwf 0)|]. split; [reflexivity|].
    split; reflexivity.
Qed.

End Batch.

Lemma stale_batch_wf : events.wf stale_batch.
Proof. split; [unfold Int.is_size_t; cbn; lia | reflexivity]. Qed.

Lemma indexing_ignores_length_witness :
  events.size stale_batch = 3 /\
  exists slot,
    events.raw_buf stale_batch !! Z.to_nat 3 = Some slot /\
    events.index stale_batch 3 = Some (event.mk slot) /\
    events.index (events.clear stale_batch) 1
      = Some (event.mk demo_event).
Proof.
  split; [reflexivity|].
  destruct (indexing_ignores_length stale_batch 3 stale_batch_wf
              ltac:(cbn; lia)) as (slot & Hslot & Hidx & _).
  exists slot. split; [exact Hslot|]. split; [exact Hidx|].
  destruct (indexing_ignores_length stale_batch 1 stale_batch_wf
              ltac:(cbn; lia))
    as (slot1 & Hslot1 & _ & _ & _ & Hclr & _).
  cbn in Hslot1. injection Hslot1 as <-. exact Hclr.
Defined.

Lemma do_poll_sets_batch_length_witness :
  exists r evs' w',
    poll.do_poll 1 demo_poll stale_batch (Some 100)
      (Script.boot [Script.ok [demo_event]] [])
    = (r, evs', w') /\
    r = Some (value tt) /\ events.size evs' = 1 /\
    0 <= 1 <= events.capacity evs'.
Proof.
  assert (E : epoll_selector.select 1 (poll.sel_ demo_poll)
                (events.raw_buf stale_batch)
                (events.raw_capacity stale_batch) (Some 100)
                (Script.boot [Script.ok [demo_event]] [])
              = (Some (value 1),
                 [demo_event; demo_event; demo_event; Epoll.zero_event],
                 Sys.mk_world (Script.mk [] []) 0
                   [Sys.epoll_wait 3 4 100]))
    by (vm_compute; reflexivity).
  destruct (do_poll_sets_batch_length 1 demo_poll stale_batch (Some 100)
              _ _ _ _ script_wait_bounded stale_batch_wf E)
    as (r & evs' & Hpoll & _ & _ & Hr & Hsize & Hrange).
  eexists r, evs', _. split; [exact Hpoll|].
  split; [assumption|]. split; assumption.
Defined.

(** ** The registry *)

Section Registry.
Import Epoll Sys.
Context {K : Type} `{!Kernel K}.

(** C8.  A successful [try_clone] returns a registry holding the very
    pointer the original holds.  The duplicate descriptor the kernel
    handed out lived in a local selector only: the calls made are the
    [dup] of the original's descriptor and the [close] of the
    duplicate. *)
Theorem try_clone_returns_original_pointer (r : registry.t)
    (m : registry.memory) (w : world K) (r' : registry.t)
    (w' : world K) :
  registry.try_clone r m w = Some (value r', w') ->
  registry.sel_ r' = registry.sel_ r /\
  exists (sel : epoll_selector.t) (new_fd : Z),
    m !! registry.sel_ r' = Some sel /\
    new_fd = ret (sys (kern w) (dup (epoll_selector.raw_fd sel))).2 /\
    0 <= new_fd /\
    trace w' = trace w ++ [dup (epoll_selector.raw_fd sel); close new_fd].
Proof.
  unfold registry.try_clone. intros E.
  destruct (m !! registry.sel_ r) as [sel|] eqn:Esel; [|discriminate].
  cbn in E. unfold epoll_selector.try_clone in E.
  pose proof (invoke_trace (dup (epoll_selector.raw_fd sel)) w) as Htr.
  unfold invoke in E, Htr.
  destruct (sys (kern w) (dup (epoll_selector.raw_fd sel))) as [k1 rp]
    eqn:Edup.
  cbn in Htr.
  destruct (Z.ltb_spec (ret rp) 0) as [Hneg|Hpos]; [discriminate|].
  injection E as <- <-. split; [reflexivity|].
  exists sel, (ret rp). cbn [registry.sel_].
  split; [exact Esel|]. split; [rewrite Edup; reflexivity|].
  split; [exact Hpos|].
  unfold epoll_selector.destroy, fd_guard.destroy, fd_guard.close_held.
  cbn [epoll_selector.epoll_fd_ fd_guard.fd_ fd_guard.make].
  apply Z.leb_le in Hpos. rewrite Hpos.
  rewrite invoke_trace. cbn [trace]. rewrite <- app_assoc. reflexivity.
Qed.

Lemma invoke_reply (c : syscall) (w : world K) :
  (invoke c w).1 = (sys (kern w) c).2.
Proof. unfold invoke. destruct (sys (kern w) c). reflexivity. Qed.

Lemma ctl_result (sel : epoll_selector.t) (op fd : Z)
    (ev : option epoll_event) (w : world K) :
  (epoll_selector.ctl sel op fd ev w).1
  = (if ret (sys (kern w) (epoll_ctl (epoll_selector.raw_fd sel) op fd ev)).2
        <? 0
     then unexpected
            (error.mk
               (err (sys (kern w)
                       (epoll_ctl (epoll_selector.raw_fd sel) op fd ev)).2))
     else value tt) /\
  (epoll_selector.ctl sel op fd ev w).2
  = (invoke (epoll_ctl (epoll_selector.raw_fd sel) op fd ev) w).2.
Proof.
  unfold epoll_selector.ctl, invoke, last_os_error.
  destruct (sys (kern w) _) as [k' r]. cbn.
  destruct (ret r <? 0); split; reflexivity.
Qed.

(** The registry's three operations are those of the selector it
    points to: the outcome is that of the one [epoll_ctl] call. *)
Lemma registry_ctl_outcome (reg : registry.t) (sel : epoll_selector.t)
    (m : registry.memory) (fd : Z) (tok : token.t) (i : interest.t)
    (w : world K) :
  m !! registry.sel_ reg = Some sel ->
  let outcome (c : syscall) : option (void_result * world K) :=
    Some (if ret (sys (kern w) c).2 <? 0
          then unexpected (error.mk (err (sys (kern w) c).2))
          else value tt,
          (invoke c w).2) in
  registry.register_fd reg fd tok i m w
  = outcome (epoll_ctl (epoll_selector.raw_fd sel) EPOLL_CTL_ADD fd
               (Some (epoll_selector.make_event tok i))) /\
  registry.reregister_fd reg fd tok i m w
  = outcome (epoll_ctl (epoll_selector.raw_fd sel) EPOLL_CTL_MOD fd
               (Some (epoll_selector.make_event tok i))) /\
  registry.deregister_fd reg fd m w
  = outcome (epoll_ctl (epoll_selector.raw_fd sel) EPOLL_CTL_DEL fd None).
Proof.
  intros Hsel. cbv zeta.
  unfold registry.register_fd, registry.reregister_fd,
    registry.deregister_fd.
  rewrite Hsel. cbn [mbind option_bind].
  unfold epoll_selector.register_fd, epoll_selector.reregister_fd,
    epoll_selector.deregister_fd.
  split; [|split]; f_equal; apply injective_projections; cbn [fst snd];
    apply ctl_result.
Qed.

Lemma registry_ctl_trace (reg : registry.t) (sel : epoll_selector.t)
    (m : registry.memory) (fd : Z) (tok : token.t) (i : interest.t)
    (w : world K) :
  m !! registry.sel_ reg = Some sel ->
  (exists r w',
      registry.register_fd reg fd tok i m w = Some (r, w') /\
      trace w' = trace w ++
        [epoll_ctl (epoll_selector.raw_fd sel) EPOLL_CTL_ADD fd
           (Some (epoll_selector.make_event tok i))]) /\
  (exists r w',
      registry.reregister_fd reg fd tok i m w = Some (r, w') /\
      trace w' = trace w ++
        [epoll_ctl (epoll_selector.raw_fd sel) EPOLL_CTL_MOD fd
           (Some (epoll_selector.make_event tok i))]) /\
  (exists r w',
      registry.deregister_fd reg fd m w = Some (r, w') /\
      trace w' = trace w ++
        [epoll_ctl (epoll_selector.raw_fd sel) EPOLL_CTL_DEL fd None]).
Proof.
  intros Hsel.
  unfold registry.register_fd, registry.reregister_fd,
    registry.deregister_fd.
  rewrite Hsel. cbn.
  unfold epoll_selector.register_fd, epoll_selector.reregister_fd,
    epoll_selector.deregister_fd.
  repeat split;
    match goal with
    | |- exists r w', Some ?p = Some (r, w') /\ _ =>
        exists p.1, p.2; split; [destruct p; reflexivity | apply ctl_trace]
    end.
Qed.

End Registry.

Lemma try_clone_returns_original_pointer_witness :
  let w0 := Script.boot [] [Script.ok 7] in
  exists w',
    registry.try_clone demo_registry demo_memory w0
      = Some (value demo_registry, w') /\
    Sys.trace w' = [Sys.dup 3; Sys.close 7] /\
    registry.sel_ demo_registry = 4096.
Proof.
  cbv zeta.
  assert (E : registry.try_clone demo_registry demo_memory
                (Script.boot [] [Script.ok 7])
              = Some (value demo_registry,
                      Sys.mk_world (Script.mk [] []) 0
                        [Sys.dup 3; Sys.close 7]))
    by (vm_compute; reflexivity).
  destruct (try_clone_returns_original_pointer _ _ _ _ _ E) as [Hptr _].
  eexists. split; [exact E|]. split; [reflexivity | exact Hptr].
Defined.

(** ** The source contract *)

Section Sources.
Import Epoll Sys.
Context {K : Type} `{!Kernel K}.

(** C1, as the code has it.  [raw_fd], [udp_socket] and
    [unix_listener] declare the three operations the [source] concept
    asks for, and on a value of any of them each operation forwards to
    the registry's operation of the same kind with the descriptor the
    value holds: it returns what the registry returns, which is the
    outcome of the one request the registry's selector issues (add and
    modify with the translated event, delete with none): the error
    carrying the code that request set when it failed, success
    otherwise.  The waker declares none of the three operations. *)
Theorem tio_wrappers_satisfy_source (s : tio_wrapper) (reg : registry.t)
    (sel : epoll_selector.t) (tok : token.t) (i : interest.t)
    (m : registry.memory) (w : world K) :
  m !! registry.sel_ reg = Some sel ->
  let fd := tio_wrapper_ops.held_fd s in
  let epfd := epoll_selector.raw_fd sel in
  let ev := Some (epoll_selector.make_event tok i) in
  let outcome (c : syscall) : option (void_result * world K) :=
    Some (if ret (sys (kern w) c).2 <? 0
          then unexpected (error.mk (err (sys (kern w) c).2))
          else value tt,
          (invoke c w).2) in
  Cpp.source (tio_wrapper_ops.decl s) = true /\
  (tio_wrapper_ops.tio_register s reg tok i m w
   = registry.register_fd reg fd tok i m w /\
   registry.register_fd reg fd tok i m w
   = outcome (epoll_ctl epfd EPOLL_CTL_ADD fd ev) /\
   trace (invoke (epoll_ctl epfd EPOLL_CTL_ADD fd ev) w).2
   = trace w ++ [epoll_ctl epfd EPOLL_CTL_ADD fd ev]) /\
  (tio_wrapper_ops.tio_reregister s reg tok i m w
   = registry.reregister_fd reg fd tok i m w /\
   registry.reregister_fd reg fd tok i m w
   = outcome (epoll_ctl epfd EPOLL_CTL_MOD fd ev) /\
   trace (invoke (epoll_ctl epfd EPOLL_CTL_MOD fd ev) w).2
   = trace w ++ [epoll_ctl epfd EPOLL_CTL_MOD fd ev]) /\
  (tio_wrapper_ops.tio_deregister s reg m w
   = registry.deregister_fd reg fd m w /\
   registry.deregister_fd reg fd m w
   = outcome (epoll_ctl epfd EPOLL_CTL_DEL fd None) /\
   trace (invoke (epoll_ctl epfd EPOLL_CTL_DEL fd None) w).2
   = trace w ++ [epoll_ctl epfd EPOLL_CTL_DEL fd None]) /\
  Cpp.source waker.decl = false.
Proof.
  intros Hsel. cbv zeta.
  split; [destruct s; vm_compute; reflexivity|].
  destruct (registry_ctl_outcome reg sel m (tio_wrapper_ops.held_fd s)
              tok i w Hsel) as (Hadd & Hmod & Hdel).
  split; [|split; [|split]].
  - split; [destruct s; reflexivity|].
    split; [exact Hadd | apply invoke_trace].
  - split; [destruct s; reflexivity|].
    split; [exact Hmod | apply invoke_trace].
  - split; [destruct s; reflexivity|].
    split; [exact Hdel | apply invoke_trace].
  - vm_compute. reflexivity.
Qed.

End Sources.

(** The waker declares [create], [wake] and [drain] only: it does not
    satisfy the concept, and [register_source] is not well-formed for
    it. *)
Lemma waker_is_not_a_source :
  Cpp.source waker.decl = false /\
  Cpp.register_source_well_formed waker.decl = false.
Proof. split; vm_compute; reflexivity. Qed.

(** The wrappers that name their members [mio_...] fail the concept
    their headers assert, and the three templates of the registry, which
    require the concept and call the [mio_...] members, are well-formed
    for none of the wrappers. *)
Lemma mio_named_wrappers_fail_the_concept :
  Forall (fun c => Cpp.source c = false /\ Cpp.forwards_compile c = true)
    [ tcp_listener.decl; tcp_stream.decl; unix_datagram.decl;
      pipe_sender.decl; pipe_receiver.decl ] /\
  Forall (fun c => Cpp.register_source_well_formed c = false)
    standard_wrappers.
Proof.
  split; repeat constructor; vm_compute; reflexivity.
Qed.

Lemma tio_wrappers_satisfy_source_witness :
  let s := of_raw_fd (raw_fd.mk 5) in
  let w0 := Script.boot [] [Script.fail Errno.EEXIST] in
  Cpp.source raw_fd.decl = true /\
  exists w',
    tio_wrapper_ops.tio_register s demo_registry (token.make 1)
      interest.readable demo_memory w0
    = Some (unexpected (error.mk Errno.EEXIST), w') /\
    Sys.trace w' = Sys.trace w0 ++
      [Sys.epoll_ctl 3 Epoll.EPOLL_CTL_ADD 5
         (Some (epoll_selector.make_event (token.make 1)
                  interest.readable))].
Proof.
  cbv zeta.
  assert (Hsel : demo_memory !! registry.sel_ demo_registry
                 = Some demo_selector) by (vm_compute; reflexivity).
  destruct (tio_wrappers_satisfy_source (of_raw_fd (raw_fd.mk 5))
              demo_registry demo_selector (token.make 1)
              interest.readable demo_memory
              (Script.boot [] [Script.fail Errno.EEXIST]) Hsel)
    as (Hsrc & (Hfwd & Hout & Htr) & _).
  split; [exact Hsrc|].
  eexists. split; [|exact Htr].
  rewrite Hfwd. exact Hout.
Defined.


(** * Further properties of the code *)

(** ** interest.hpp *)

Section InterestAlgebra.

Lemma is_readable_bit (i : interest.t) :
  interest.is_readable i = Z.testbit (interest.bits_ i) 0.
Proof. apply (land_pow2_nonzero (interest.bits_ i) 0). lia. Qed.

Lemma is_writable_bit (i : interest.t) :
  interest.is_writable i = Z.testbit (interest.bits_ i) 1.
Proof. apply (land_pow2_nonzero (interest.bits_ i) 1). lia. Qed.

Lemma is_priority_bit (i : interest.t) :
  interest.is_priority i = Z.testbit (interest.bits_ i) 2.
Proof. apply (land_pow2_nonzero (interest.bits_ i) 2). lia. Qed.

Lemma to_uint8_low_bit (x k : Z) :
  0 <= k < 8 -> Z.testbit (Int.to_uint8 x) k = Z.testbit x k.
Proof. intros Hk. unfold Int.to_uint8. apply Z.mod_pow2_bits_low. lia. Qed.

(** X1.  An interest built with [operator|] is readable (writable,
    priority) exactly when one of its operands is. *)
Theorem union_predicates (a b : interest.t) :
  interest.is_readable (interest.union a b)
    = interest.is_readable a || interest.is_readable b /\
  interest.is_writable (interest.union a b)
    = interest.is_writable a || interest.is_writable b /\
  interest.is_priority (interest.union a b)
    = interest.is_priority a || interest.is_priority b.
Proof.
  rewrite !is_readable_bit, !is_writable_bit, !is_priority_bit.
  unfold interest.union. cbn [interest.bits_].
  rewrite !to_uint8_low_bit, !Z.lor_spec by lia.
  repeat split; reflexivity.
Qed.

(** X2.  [a.remove(b)] is readable (writable, priority) exactly when
    [a] is and [b] is not. *)
Theorem remove_predicates (a b : interest.t) :
  interest.is_readable (interest.remove a b)
    = interest.is_readable a && negb (interest.is_readable b) /\
  interest.is_writable (interest.remove a b)
    = interest.is_writable a && negb (interest.is_writable b) /\
  interest.is_priority (interest.remove a b)
    = interest.is_priority a && negb (interest.is_priority b).
Proof.
  rewrite !is_readable_bit, !is_writable_bit, !is_priority_bit.
  unfold interest.remove. cbn [interest.bits_].
  rewrite !to_uint8_low_bit, !Z.land_spec, !Z.lnot_spec by lia.
  repeat split; reflexivity.
Qed.

Lemma interest_valid_cases (i : interest.t) :
  interest_valid i ->
  i = interest.mk 0 \/ i = interest.mk 1 \/ i = interest.mk 2 \/
  i = interest.mk 3 \/ i = interest.mk 4 \/ i = interest.mk 5 \/
  i = interest.mk 6 \/ i = interest.mk 7.
Proof.
  destruct i as [x]. unfold interest_valid. cbn. intros Hx.
  assert (x = 0 \/ x = 1 \/ x = 2 \/ x = 3 \/ x = 4 \/ x = 5 \/ x = 6
          \/ x = 7) as H by lia.
  repeat (destruct H as [->|H]; [tauto|]). subst. tauto.
Qed.

(** X3.  On the values an interest can take, union and removal stay
    within those values; union is idempotent and commutative with the
    empty interest as its unit; removing an interest from itself leaves
    the empty one; and an interest is empty exactly when none of the
    three predicates holds. *)
Theorem interest_set_algebra (a b : interest.t) :
  interest_valid a -> interest_valid b ->
  interest_valid (interest.union a b) /\
  interest_valid (interest.remove a b) /\
  interest.union a a = a /\
  interest.union a b = interest.union b a /\
  interest.union a interest.empty = a /\
  interest.remove a a = interest.empty /\
  interest.remove a interest.empty = a /\
  (interest.is_empty a = true <->
     interest.is_readable a = false /\ interest.is_writable a = false /\
     interest.is_priority a = false).
Proof.
  intros Ha Hb.
  apply interest_valid_cases in Ha. apply interest_valid_cases in Hb.
  unfold interest_valid.
  repeat (destruct Ha as [->|Ha]); try subst a;
    repeat (destruct Hb as [->|Hb]); try subst b;
    repeat split; vm_compute in *; intuition congruence.
Qed.

Lemma interest_set_algebra_witness :
  interest.union (interest.union interest.readable interest.priority)
    (interest.union interest.readable interest.priority)
  = interest.union interest.readable interest.priority /\
  interest.remove interest.writable interest.writable = interest.empty.
Proof.
  assert (Hv : interest_valid
                 (interest.union interest.readable interest.priority))
    by (vm_compute; intuition congruence).
  assert (Hw : interest_valid interest.writable)
    by (vm_compute; intuition congruence).
  destruct (interest_set_algebra _ _ Hv Hv) as (_ & _ & Hidem & _).
  destruct (interest_set_algebra _ _ Hw Hw) as (_ & _ & _ & _ & _ & Hrem & _).
  split; assumption.
Defined.

End InterestAlgebra.

(** ** event.hpp *)

Section EventViews.
Import Epoll.

Lemma is_readable_event_bit (e : event.t) :
  event.is_readable e = Z.testbit (events (event.raw e)) bit_in.
Proof. apply land_pow2_nonzero. unfold bit_in. lia. Qed.

Lemma is_writable_event_bit (e : event.t) :
  event.is_writable e = Z.testbit (events (event.raw e)) bit_out.
Proof. apply land_pow2_nonzero. unfold bit_out. lia. Qed.

Lemma is_priority_event_bit (e : event.t) :
  event.is_priority e = Z.testbit (events (event.raw e)) bit_pri.
Proof. apply land_pow2_nonzero. unfold bit_pri. lia. Qed.

(** X4.  The event view and the selector's translation agree on the
    bits: viewing the very event [register_fd] builds for a token and an
    interest gives back that token, reports readable, writable and
    priority exactly as the interest has them, reports read-closed
    exactly when the interest is readable (the read-hang-up bit rides
    with it), and reports neither error nor write-closed. *)
Theorem registered_event_reads_back (tok : token.t) (i : interest.t) :
  let ev := event.mk (epoll_selector.make_event tok i) in
  event.tok ev = tok /\
  event.is_readable ev = interest.is_readable i /\
  event.is_writable ev = interest.is_writable i /\
  event.is_priority ev = interest.is_priority i /\
  event.is_read_closed ev = interest.is_readable i /\
  event.is_error ev = false /\
  event.is_write_closed ev = false.
Proof.
  cbv zeta. split; [destruct tok; reflexivity|].
  rewrite is_readable_event_bit, is_writable_event_bit,
    is_priority_event_bit, is_read_closed_bits, is_error_bit,
    is_write_closed_bits.
  cbn [event.raw event.raw_ events epoll_selector.make_event].
  rewrite !interest_to_epoll_bits.
  unfold bit_in, bit_out, bit_pri, bit_hup, bit_rdhup, bit_err, bit_et.
  cbn [Z.eqb Pos.eqb orb andb].
  destruct (interest.is_readable i), (interest.is_writable i),
    (interest.is_priority i); repeat split; reflexivity.
Qed.

(** X5.  Each of the four plain predicates reads one bit of the flag
    word (input-ready, output-ready, error, priority), whatever the
    other bits and the token are; and write-closed is error or hang-up,
    so an event that is an error is always write-closed. *)
Theorem plain_predicates_read_one_bit (e : event.t) :
  event.is_readable e = Z.testbit (events (event.raw e)) bit_in /\
  event.is_writable e = Z.testbit (events (event.raw e)) bit_out /\
  event.is_error e = Z.testbit (events (event.raw e)) bit_err /\
  event.is_priority e = Z.testbit (events (event.raw e)) bit_pri /\
  event.is_write_closed e
    = event.is_error e || Z.testbit (events (event.raw e)) bit_hup /\
  (event.is_error e = true -> event.is_write_closed e = true).
Proof.
  rewrite is_write_closed_bits.
  rewrite <- is_readable_event_bit, <- is_writable_event_bit,
    <- is_error_bit, <- is_priority_event_bit.
  repeat split; try reflexivity.
  - apply orb_comm.
  - intros ->. apply orb_true_r.
Qed.

End EventViews.

(** ** The event batch *)

Section BatchIteration.
Import Epoll.

Lemma visit_slots (n : nat) :
  forall (fuel : nat) (buf : list epoll_event) (p : nat),
    (n <= fuel)%nat -> (p + n <= length buf)%nat ->
    visit fuel buf (event_iterator.mk (Some (Z.of_nat p)))
      (event_iterator.mk (Some (Z.of_nat (p + n))))
    = Some (event.mk <$> take n (drop p buf)).
Proof.
  induction n as [|n IH]; intros fuel buf p Hfuel Hlen.
  - rewrite Nat.add_0_r.
    destruct fuel; cbn; rewrite Z.eqb_refl; reflexivity.
  - destruct fuel as [|fuel]; [lia|].
    cbn [visit event_iterator.eqb event_iterator.ptr_].
    destruct (Z.eqb_spec (Z.of_nat p) (Z.of_nat (p + S n))) as [E|_];
      [lia|].
    unfold event_iterator.deref, event_iterator.incr.
    cbn [event_iterator.ptr_ fmap option_fmap option_map].
    destruct (Z.ltb_spec (Z.of_nat p) 0) as [E|_]; [lia|].
    rewrite Nat2Z.id.
    destruct (buf !! p) as [slot|] eqn:Eslot;
      [|apply lookup_ge_None in Eslot; lia].
    cbn [mbind option_bind fmap option_fmap option_map].
    rewrite <- Nat2Z.inj_succ.
    replace (p + S n)%nat with (S p + n)%nat by lia.
    rewrite IH by lia.
    cbn [mbind option_bind].
    rewrite (drop_S _ _ _ Eslot). reflexivity.
Qed.

(** X6.  The loop [for (const auto& ev : evs)] over a batch whose
    length is within its capacity ends once the bound on its passes
    is at least the length: it runs its body on as many events as
    [size()] says, the [i]-th of them the one [operator[]] gives for
    [i], reading no slot outside the buffer; these are the first
    [len_] slots in order.  For a cleared or a fresh batch [begin()]
    equals [end()] and the body is not run. *)
Theorem iteration_agrees_with_indexing (fuel : nat) (evs : events.t) :
  events.wf evs -> 0 <= events.size evs <= events.capacity evs ->
  (Z.to_nat (events.size evs) <= fuel)%nat ->
  exists visited,
    range_for fuel evs = Some visited /\
    Z.of_nat (length visited) = events.size evs /\
    (forall i, 0 <= i < events.size evs ->
               visited !! Z.to_nat i = events.index evs i /\
               is_Some (events.index evs i)) /\
    visited = events.to_list evs /\
    event_iterator.eqb (events_begin (events.clear evs))
      (events_end (events.clear evs)) = true /\
    range_for 0 (events.clear evs) = Some [] /\
    range_for 0 (events.make (events.capacity evs)) = Some [].
Proof.
  intros [Hcap Hbuf] Hsize Hfuel.
  unfold events.size, events.capacity in *.
  exists (events.to_list evs).
  split; [|split; [|split; [|split; [|split; [|split]]]]].
  - unfold range_for, events_begin, events_end, events.to_list,
      event_iterator.make.
    rewrite Z.add_0_l.
    rewrite <- (Z2Nat.id (events.len_ evs)) at 1 by lia.
    change 0 with (Z.of_nat 0) at 1.
    change (Z.to_nat (events.len_ evs))
      with (0 + Z.to_nat (events.len_ evs))%nat at 1.
    rewrite visit_slots by lia. reflexivity.
  - unfold events.to_list. rewrite length_fmap, length_take. lia.
  - intros i Hi. unfold events.to_list, events.index.
    assert (Ei : (i <? 0) = false) by (apply Z.ltb_ge; lia).
    rewrite Ei, list_lookup_fmap, lookup_take_lt by lia.
    split; [reflexivity|].
    destruct (events.buf_ evs !! Z.to_nat i) as [slot|] eqn:E.
    + cbn. eauto.
    + apply lookup_ge_None in E. lia.
  - reflexivity.
  - reflexivity.
  - reflexivity.
  - reflexivity.
Qed.

Lemma iteration_agrees_with_indexing_witness :
  exists visited,
    range_for 3 stale_batch = Some visited /\
    Z.of_nat (length visited) = 3 /\
    visited !! Z.to_nat 2 = events.index stale_batch 2.
Proof.
  destruct (iteration_agrees_with_indexing 3 stale_batch stale_batch_wf
              ltac:(cbn; lia) ltac:(cbn; lia))
    as (visited & Hrun & Hlen & Hidx & _).
  exists visited. split; [exact Hrun|]. split; [exact Hlen|].
  destruct (Hidx 2 ltac:(cbn; lia)) as [H _]. exact H.
Defined.

End BatchIteration.

(** ** The selector's calls *)

Section SelectorCalls.
Import Epoll Sys.
Context {K : Type} `{!Kernel K}.

(** X7.  [register_fd], [reregister_fd] and [deregister_fd] make one
    [epoll_ctl] call each (add, modify, and delete with a null event)
    and neither retry nor translate: the call's failure is returned as
    the error carrying the code the kernel set, whatever it is, and
    anything else is success. *)
Theorem registration_surfaces_kernel_verdict (sel : epoll_selector.t)
    (fd : Z) (tok : token.t) (i : interest.t) (w : world K) :
  let epfd := epoll_selector.raw_fd sel in
  let ev := Some (epoll_selector.make_event tok i) in
  let verdict (c : syscall) : void_result :=
    if ret (sys (kern w) c).2 <? 0
    then unexpected (error.mk (err (sys (kern w) c).2))
    else value tt in
  epoll_selector.register_fd sel fd tok i w
    = (verdict (epoll_ctl epfd EPOLL_CTL_ADD fd ev),
       (invoke (epoll_ctl epfd EPOLL_CTL_ADD fd ev) w).2) /\
  epoll_selector.reregister_fd sel fd tok i w
    = (verdict (epoll_ctl epfd EPOLL_CTL_MOD fd ev),
       (invoke (epoll_ctl epfd EPOLL_CTL_MOD fd ev) w).2) /\
  epoll_selector.deregister_fd sel fd w
    = (verdict (epoll_ctl epfd EPOLL_CTL_DEL fd None),
       (invoke (epoll_ctl epfd EPOLL_CTL_DEL fd None) w).2) /\
  (forall e,
      (epoll_selector.register_fd sel fd tok i w).1 = unexpected e ->
      error.is_already_exists e
      = (err (sys (kern w) (epoll_ctl epfd EPOLL_CTL_ADD fd ev)).2
         =? Errno.EEXIST)).
Proof.
  cbv zeta.
  unfold epoll_selector.register_fd, epoll_selector.reregister_fd,
    epoll_selector.deregister_fd.
  repeat split;
    try (apply injective_projections; cbn [fst snd]; apply ctl_result).
  intros e He. rewrite (proj1 (ctl_result _ _ _ _ _)) in He.
  destruct (ret _ <? 0); [|discriminate]. injection He as <-. reflexivity.
Qed.

(** X8.  [poll::create] asks for a close-on-exec epoll instance.  When
    the kernel hands out a descriptor the poll owns it (its selector
    holds that non-negative value), and destroying the poll closes it,
    once; when the kernel refuses, the error carries the kernel's code
    and nothing is owned. *)
Theorem poll_create_owns_its_descriptor (w : world K) :
  let r := (sys (kern w) (epoll_create1 EPOLL_CLOEXEC)).2 in
  match (poll.create w).1 with
  | value p =>
      0 <= ret r /\
      epoll_selector.raw_fd (poll.sel_ p) = ret r /\
      trace (poll_destroy p (poll.create w).2)
        = trace w ++ [epoll_create1 EPOLL_CLOEXEC; close (ret r)]
  | unexpected e =>
      ret r < 0 /\ e = error.mk (err r) /\
      trace (poll.create w).2 = trace w ++ [epoll_create1 EPOLL_CLOEXEC]
  end.
Proof.
  cbv zeta. unfold poll.create, epoll_selector.create.
  pose proof (invoke_trace (epoll_create1 EPOLL_CLOEXEC) w) as Htr.
  pose proof (invoke_errno_failed (epoll_create1 EPOLL_CLOEXEC) w) as Herr.
  destruct (invoke (epoll_create1 EPOLL_CLOEXEC) w) as [r1 w1] eqn:Einv.
  pose proof (invoke_reply (epoll_create1 EPOLL_CLOEXEC) w) as Hr.
  rewrite Einv in Hr. cbn [fst snd] in Htr, Herr, Hr. subst r1.
  destruct (Z.ltb_spec
              (ret (sys (kern w) (epoll_create1 EPOLL_CLOEXEC)).2) 0)
    as [Hneg|Hpos]; cbn [fst snd].
  - split; [assumption|]. split; [|assumption].
    unfold last_os_error. rewrite Herr by assumption. reflexivity.
  - split; [assumption|]. split; [reflexivity|].
    unfold poll_destroy, epoll_selector.destroy, fd_guard.destroy,
      fd_guard.close_held.
    cbn [poll.sel_ epoll_selector.epoll_fd_ fd_guard.fd_ fd_guard.make].
    apply Z.leb_le in Hpos. rewrite Hpos.
    rewrite invoke_trace, Htr, <- app_assoc. reflexivity.
Qed.

(** X9.  [registry::try_clone] never leaves a descriptor behind: it
    makes the [dup] call, and exactly when that call handed out a
    descriptor it closes that descriptor again and reports success;
    otherwise it closes nothing and returns the error carrying the
    kernel's code. *)
Theorem registry_try_clone_balances (r : registry.t)
    (m : registry.memory) (sel : epoll_selector.t) (w : world K) :
  m !! registry.sel_ r = Some sel ->
  let d := (sys (kern w) (dup (epoll_selector.raw_fd sel))).2 in
  exists res w',
    registry.try_clone r m w = Some (res, w') /\
    (0 <= ret d ->
     res = value r /\
     trace w' = trace w ++ [dup (epoll_selector.raw_fd sel); close (ret d)])
    /\
    (ret d < 0 ->
     res = unexpected (error.mk (err d)) /\
     trace w' = trace w ++ [dup (epoll_selector.raw_fd sel)]).
Proof.
  intros Hsel. cbv zeta. unfold registry.try_clone. rewrite Hsel. cbn.
  unfold epoll_selector.try_clone.
  pose proof (invoke_trace (dup (epoll_selector.raw_fd sel)) w) as Htr.
  pose proof (invoke_errno_failed (dup (epoll_selector.raw_fd sel)) w)
    as Herr.
  destruct (invoke (dup (epoll_selector.raw_fd sel)) w) as [r1 w1] eqn:Einv.
  pose proof (invoke_reply (dup (epoll_selector.raw_fd sel)) w) as Hr.
  rewrite Einv in Hr. cbn [fst snd] in Htr, Herr, Hr. subst r1.
  destruct (Z.ltb_spec
              (ret (sys (kern w) (dup (epoll_selector.raw_fd sel))).2) 0)
    as [Hneg|Hpos].
  - eexists _, _. split; [reflexivity|]. split; [lia|]. intros _.
    split; [|assumption].
    unfold last_os_error. rewrite Herr by assumption. reflexivity.
  - eexists _, _. split; [reflexivity|]. split; [|lia]. intros _.
    split; [destruct r; reflexivity|].
    unfold epoll_selector.destroy, fd_guard.destroy, fd_guard.close_held.
    cbn [epoll_selector.epoll_fd_ fd_guard.fd_ fd_guard.make].
    apply Z.leb_le in Hpos. rewrite Hpos.
    rewrite invoke_trace, Htr, <- app_assoc. reflexivity.
Qed.

End SelectorCalls.

Lemma registry_try_clone_balances_witness :
  exists res w',
    registry.try_clone demo_registry demo_memory
      (Script.boot [] [Script.fail Errno.EMFILE]) = Some (res, w') /\
    res = unexpected (error.mk Errno.EMFILE) /\
    Sys.trace w' = [Sys.dup 3].
Proof.
  assert (Hsel : demo_memory !! registry.sel_ demo_registry
                 = Some demo_selector) by (vm_compute; reflexivity).
  destruct (registry_try_clone_balances demo_registry demo_memory
              demo_selector (Script.boot [] [Script.fail Errno.EMFILE])
              Hsel) as (res & w' & E & _ & Hfail).
  exists res, w'. split; [exact E|].
  apply Hfail. cbn. lia.
Defined.

(** ** select and do_poll, end to end *)

Section EndToEnd.
Import Epoll Sys.
Context {K : Type} `{!Kernel K}.

Lemma wait_loop_after_waits (k : nat) :
  forall (extra : nat) (epfd : Z) (buf : list epoll_event)
         (max_events tm : Z) (w : world K),
    (forall j, (j < k)%nat ->
       interrupted
         (wait_reply epfd max_events tm
            (after_waits j epfd buf max_events tm w).2)) ->
    epoll_selector.wait_loop (k + extra) epfd buf max_events tm w
    = epoll_selector.wait_loop extra epfd
        (after_waits k epfd buf max_events tm w).1 max_events tm
        (after_waits k epfd buf max_events tm w).2.
Proof.
  induction k as [|k IH]; intros extra epfd buf max_events tm w Hint.
  - reflexivity.
  - destruct (Hint O ltac:(lia)) as [Hret Herr].
    cbn [after_waits snd] in Hret, Herr. unfold wait_reply in Hret, Herr.
    change (S k + extra)%nat with (S (k + extra)).
    rewrite wait_loop_retry by assumption.
    cbn [after_waits].
    change (sys (kern w) (epoll_wait epfd max_events tm)).2
      with (wait_reply epfd max_events tm w).
    apply IH. intros j Hj. apply (Hint (S j)). lia.
Qed.

(** X10.  However many waits in a row are interrupted, [select] returns
    the verdict of the first one that is not: if the first [k] wait
    calls fail with EINTR and the next one does not, then under any
    bound above [k] on the number of waits [select] returns after
    exactly [k + 1] calls, with that call's count, or with its error
    code when the call failed. *)
Theorem select_returns_first_uninterrupted_wait (k extra : nat)
    (sel : epoll_selector.t) (buf : list epoll_event) (max_events : Z)
    (timeout : option Z) (w : world K) :
  let epfd := epoll_selector.raw_fd sel in
  let tm := epoll_selector.timeout_ms timeout in
  let reached j := after_waits j epfd buf max_events tm w in
  let r := wait_reply epfd max_events tm (reached k).2 in
  (forall j, (j < k)%nat ->
             interrupted (wait_reply epfd max_events tm (reached j).2)) ->
  ~ interrupted r ->
  epoll_selector.select (S k + extra) sel buf max_events timeout w
  = (Some (if ret r <? 0 then unexpected (error.mk (err r))
           else value (ret r)),
     (reached (S k)).1, (reached (S k)).2) /\
  trace (reached (S k)).2
  = trace w ++ replicate (S k) (epoll_wait epfd max_events tm).
Proof.
  cbv zeta. intros Hint Hlast. split.
  - unfold epoll_selector.select.
    replace (S k + extra)%nat with (k + S extra)%nat by lia.
    rewrite wait_loop_after_waits by assumption.
    assert (Hdone :
      0 <= ret (wait_reply (epoll_selector.raw_fd sel) max_events
                  (epoll_selector.timeout_ms timeout)
                  (after_waits k (epoll_selector.raw_fd sel) buf max_events
                     (epoll_selector.timeout_ms timeout) w).2) \/
      err (wait_reply (epoll_selector.raw_fd sel) max_events
             (epoll_selector.timeout_ms timeout)
             (after_waits k (epoll_selector.raw_fd sel) buf max_events
                (epoll_selector.timeout_ms timeout) w).2) <> Errno.EINTR).
    { unfold interrupted in Hlast.
      destruct (Z.ltb_spec
                  (ret (wait_reply (epoll_selector.raw_fd sel) max_events
                          (epoll_selector.timeout_ms timeout)
                          (after_waits k (epoll_selector.raw_fd sel) buf
                             max_events
                             (epoll_selector.timeout_ms timeout) w).2)) 0);
        [right; tauto | left; assumption]. }
    unfold wait_reply in Hdone |- *.
    rewrite wait_loop_done by assumption.
    replace (after_waits (S k) (epoll_selector.raw_fd sel) buf max_events
               (epoll_selector.timeout_ms timeout) w)
      with (after_waits 1 (epoll_selector.raw_fd sel)
              (after_waits k (epoll_selector.raw_fd sel) buf max_events
                 (epoll_selector.timeout_ms timeout) w).1 max_events
              (epoll_selector.timeout_ms timeout)
              (after_waits k (epoll_selector.raw_fd sel) buf max_events
                 (epoll_selector.timeout_ms timeout) w).2).
    + cbn [after_waits fst snd]. unfold wait_reply.
      destruct (Z.ltb_spec
                  (ret (sys
                          (kern
                             (after_waits k (epoll_selector.raw_fd sel) buf
                                max_events
                                (epoll_selector.timeout_ms timeout) w).2)
                          (epoll_wait (epoll_selector.raw_fd sel) max_events
                             (epoll_selector.timeout_ms timeout))).2) 0)
        as [Hneg|Hpos]; [|reflexivity].
      unfold last_os_error. rewrite invoke_errno_failed by assumption.
      reflexivity.
    + clear. generalize buf w. induction k as [|k IH]; intros b v.
      * reflexivity.
      * cbn [after_waits]. apply IH.
  - clear. generalize buf w.
    induction (S k) as [|n IH]; intros b v.
    + cbn. rewrite app_nil_r. reflexivity.
    + cbn [after_waits snd replicate]. rewrite IH, invoke_trace.
      rewrite <- app_assoc. reflexivity.
Qed.

(** X11.  A present timeout reaches the kernel truncated to 32 bits:
    the one wait call of an uninterrupted [select] carries a value in
    the range of [int] that is congruent to the millisecond count
    modulo 2^32, equal to it exactly when the count fits an [int], and
    non-negative exactly when the count's low 32 bits are below 2^31
    (so a count of 2^31 ms is handed over as a negative timeout). *)
Theorem select_truncates_timeout (sel : epoll_selector.t)
    (buf : list epoll_event) (max_events t : Z) (w : world K) :
  exists tm,
    (exists rest,
        trace (epoll_selector.select 1 sel buf max_events (Some t) w).2
        = trace w ++
          epoll_wait (epoll_selector.raw_fd sel) max_events tm :: rest) /\
    Int.is_int tm /\
    tm mod 2 ^ 32 = t mod 2 ^ 32 /\
    (tm = t <-> Int.is_int t) /\
    (0 <= tm <-> t mod 2 ^ 32 < 2 ^ 31).
Proof.
  exists (Int.to_int t). split; [|split; [|split; [|split]]].
  - exists []. unfold epoll_selector.select.
    rewrite wait_loop_unfold. cbv zeta.
    destruct (_ && _); cbn [epoll_selector.wait_loop epoll_selector.timeout_ms];
      repeat match goal with
        | |- context [if ?c then _ else _] => destruct c
        end;
      cbn [snd]; apply invoke_trace.
  - unfold Int.is_int, Int.int_min, Int.int_max, Int.to_int.
    pose proof (Z.mod_pos_bound (t + 2 ^ 31) (2 ^ 32)). lia.
  - unfold Int.to_int.
    rewrite Zminus_mod, Zmod_mod, <- Zminus_mod. f_equal. lia.
  - split; [|apply to_int_fits].
    unfold Int.is_int, Int.int_min, Int.int_max, Int.to_int. intros <-.
    pose proof (Z.mod_pos_bound (t + 2 ^ 31) (2 ^ 32)). lia.
  - unfold Int.to_int.
    pose proof (Z.mod_pos_bound t (2 ^ 32)).
    pose proof (Z.mod_pos_bound (t + 2 ^ 31) (2 ^ 32)).
    assert (E : (t + 2 ^ 31) mod 2 ^ 32
                = (t mod 2 ^ 32 + 2 ^ 31) mod 2 ^ 32)
      by (rewrite Zplus_mod_idemp_l; reflexivity).
    destruct (Z_lt_ge_dec (t mod 2 ^ 32) (2 ^ 31)) as [Hlt|Hge].
    + rewrite E, Z.mod_small by lia. lia.
    + assert (E2 : (t mod 2 ^ 32 + 2 ^ 31) mod 2 ^ 32
                   = t mod 2 ^ 32 + 2 ^ 31 - 2 ^ 32).
      { symmetry. apply Z.mod_unique with (q := 1); lia. }
      rewrite E, E2. lia.
Qed.

End EndToEnd.

Lemma select_returns_first_uninterrupted_wait_witness :
  epoll_selector.select 3 demo_selector [Epoll.zero_event] 1 (Some 100)
    (Script.boot
       [Script.fail Errno.EINTR; Script.fail Errno.EINTR;
        Script.ok [demo_event]] [])
  = (Some (value 1), [demo_event],
     Sys.mk_world (Script.mk [] []) Errno.EINTR
       (replicate 3 (Sys.epoll_wait 3 1 100))).
Proof.
  pose proof (select_returns_first_uninterrupted_wait 2 0 demo_selector
                [Epoll.zero_event] 1 (Some 100)
                (Script.boot
                   [Script.fail Errno.EINTR; Script.fail Errno.EINTR;
                    Script.ok [demo_event]] [])) as H.
  cbv zeta in H. destruct H as [H _].
  - intros j Hj. destruct j as [|[|j]]; [| |lia];
      split; vm_compute; reflexivity.
  - intros [Hret _]. vm_compute in Hret. discriminate.
  - etransitivity; [exact H|]. vm_compute. reflexivity.
Defined.

Section Delivery.
Import Epoll Sys.
Context {K : Type} `{!Kernel K}.

Lemma select_done (fuel : nat) (sel : epoll_selector.t)
    (buf : list epoll_event) (max_events : Z) (timeout : option Z)
    (w : world K) :
  let r := wait_reply (epoll_selector.raw_fd sel) max_events
             (epoll_selector.timeout_ms timeout) w in
  0 <= ret r ->
  epoll_selector.select (S fuel) sel buf max_events timeout w
  = (Some (value (ret r)), epoll_selector.store_events (out r) buf,
     (invoke (epoll_wait (epoll_selector.raw_fd sel) max_events
                (epoll_selector.timeout_ms timeout)) w).2).
Proof.
  cbv zeta. unfold wait_reply. intros Hret.
  unfold epoll_selector.select.
  rewrite wait_loop_done by (left; assumption).
  apply Z.ltb_ge in Hret. rewrite Hret. reflexivity.
Qed.

(** X12.  A poll that is not interrupted delivers the kernel's events:
    when the wait call returns a count [n] within the capacity and the
    kernel stored [n] events, [do_poll] succeeds after that one call,
    the batch has length [n], iterating it visits exactly the events
    the kernel stored, in order, and the slots from [n] on keep what
    they held before the call. *)
Theorem do_poll_delivers_kernel_events (fuel : nat) (p : poll.t)
    (evs : events.t) (timeout : option Z) (w : world K) :
  let call := epoll_wait (epoll_selector.raw_fd (poll.sel_ p))
                (events.raw_capacity evs)
                (epoll_selector.timeout_ms timeout) in
  let r := (sys (kern w) call).2 in
  events.wf evs ->
  0 <= ret r <= events.raw_capacity evs ->
  Z.of_nat (length (out r)) = ret r ->
  exists evs',
    poll.do_poll (S fuel) p evs timeout w
      = (Some (value tt), evs', (invoke call w).2) /\
    events.size evs' = ret r /\
    events.to_list evs' = event.mk <$> out r /\
    (forall i, ret r <= i ->
               events.index evs' i = events.index evs i).
Proof.
  cbv zeta. intros [Hcap Hbuf] Hret Hout.
  unfold Int.is_size_t in Hcap.
  assert (Hle : events.raw_capacity evs <= events.capacity_ evs)
    by (apply to_int_le; lia).
  unfold poll.do_poll.
  change (events.raw_buf (events.clear evs)) with (events.buf_ evs).
  change (events.raw_capacity (events.clear evs))
    with (events.raw_capacity evs).
  pose proof (select_done fuel (poll.sel_ p) (events.buf_ evs)
                (events.raw_capacity evs) timeout w) as Hsel.
  cbv zeta in Hsel. unfold wait_reply in Hsel.
  rewrite Hsel by lia. clear Hsel.
  eexists. split; [reflexivity|].
  assert (Hn : Int.to_size_t
                 (ret (sys (kern w)
                         (epoll_wait
                            (epoll_selector.raw_fd (poll.sel_ p))
                            (events.raw_capacity evs)
                            (epoll_selector.timeout_ms timeout))).2)
               = Z.of_nat
                   (length
                      (out (sys (kern w)
                              (epoll_wait
                                 (epoll_selector.raw_fd (poll.sel_ p))
                                 (events.raw_capacity evs)
                                 (epoll_selector.timeout_ms timeout))).2))).
  { unfold Int.to_size_t. rewrite Z.mod_small; lia. }
  unfold events.size, events.to_list, events.index.
  cbn [events.set_len events.with_buf events.clear events.len_
         events.buf_].
  rewrite Hn. clear Hn.
  remember (out (sys (kern w)
                   (epoll_wait (epoll_selector.raw_fd (poll.sel_ p))
                      (events.raw_capacity evs)
                      (epoll_selector.timeout_ms timeout))).2)
    as written eqn:Ew.
  assert (Hfit : (length written <= length (events.buf_ evs))%nat) by lia.
  unfold epoll_selector.store_events.
  rewrite (take_ge written) by assumption.
  split; [lia|]. split.
  - rewrite Nat2Z.id, take_app_length. reflexivity.
  - intros i Hi. destruct (i <? 0); [reflexivity|]. f_equal.
    rewrite lookup_app_r by lia. rewrite lookup_drop. f_equal. lia.
Qed.

(** X13.  The capacity reaches the kernel as an [int]: [raw_capacity]
    is the capacity itself exactly when that fits an [int], and is zero
    exactly when the capacity is a multiple of 2^32 (zero included).
    With such a batch, on a kernel that fails a wait for zero events
    with EINVAL, [do_poll] returns that error and leaves the batch
    empty. *)
Theorem do_poll_truncates_capacity (fuel : nat) (p : poll.t)
    (evs : events.t) (timeout : option Z) (w : world K) :
  events.wf evs ->
  (events.raw_capacity evs = events.capacity evs <->
     events.capacity evs <= Int.int_max) /\
  (events.raw_capacity evs = 0 <-> events.capacity evs mod 2 ^ 32 = 0) /\
  (rejects_empty_wait K -> events.raw_capacity evs = 0 ->
   (poll.do_poll (S fuel) p evs timeout w).1.1
     = Some (unexpected (error.mk Errno.EINVAL)) /\
   events.size (poll.do_poll (S fuel) p evs timeout w).1.2 = 0 /\
   trace (poll.do_poll (S fuel) p evs timeout w).2
     = trace w ++
       [epoll_wait (epoll_selector.raw_fd (poll.sel_ p)) 0
          (epoll_selector.timeout_ms timeout)]).
Proof.
  intros [Hcap Hbuf]. unfold Int.is_size_t in Hcap.
  unfold events.raw_capacity, events.capacity.
  split; [|split].
  - split.
    + unfold Int.to_int, Int.int_max. intros E.
      pose proof (Z.mod_pos_bound (events.capacity_ evs + 2 ^ 31) (2 ^ 32)).
      lia.
    + intros Hle. apply to_int_fits.
      unfold Int.is_int, Int.int_min, Int.int_max in *. lia.
  - unfold Int.to_int. split.
    + intros E.
      assert (E1 : (events.capacity_ evs + 2 ^ 31) mod 2 ^ 32 = 2 ^ 31)
        by lia.
      rewrite <- (Z.add_simpl_r (events.capacity_ evs) (2 ^ 31)).
      rewrite Zminus_mod, E1. reflexivity.
    + intros E.
      rewrite <- Zplus_mod_idemp_l, E. reflexivity.
  - intros Hrej Hzero. unfold poll.do_poll.
    change (events.raw_buf (events.clear evs)) with (events.buf_ evs).
    change (events.raw_capacity (events.clear evs))
      with (Int.to_int (events.capacity_ evs)).
    rewrite Hzero.
    destruct (Hrej (kern w) (epoll_selector.raw_fd (poll.sel_ p))
                (epoll_selector.timeout_ms timeout)) as [Hret Herr].
    rewrite select_failed_errno
      by (try assumption; rewrite Herr;
          unfold Errno.EINVAL, Errno.EINTR; lia).
    cbn [fst snd]. rewrite Herr.
    split; [reflexivity|]. split; [reflexivity | apply invoke_trace].
Qed.

End Delivery.

Lemma do_poll_delivers_kernel_events_witness :
  exists evs' w',
    poll.do_poll 1 demo_poll stale_batch (Some 100)
      (Script.boot [Script.ok [Epoll.mk_event Epoll.EPOLLOUT 9]] [])
    = (Some (value tt), evs', w') /\
    events.size evs' = 1 /\
    events.to_list evs' = [event.mk (Epoll.mk_event Epoll.EPOLLOUT 9)] /\
    events.index evs' 1 = Some (event.mk demo_event).
Proof.
  destruct (do_poll_delivers_kernel_events 0 demo_poll stale_batch
              (Some 100)
              (Script.boot [Script.ok [Epoll.mk_event Epoll.EPOLLOUT 9]] [])
              stale_batch_wf)
    as (evs' & E & Hsize & Hlist & Hrest).
  - vm_compute. intuition congruence.
  - vm_compute. reflexivity.
  - eexists evs', _. split; [exact E|]. split; [exact Hsize|].
    split; [exact Hlist|].
    rewrite Hrest by (vm_compute; congruence). reflexivity.
Defined.

Lemma do_poll_truncates_capacity_witness :
  events.raw_capacity (events.make (2 ^ 32)) = 0 /\
  (poll.do_poll 1 demo_poll (events.make 0) None (Script.boot [] [])).1.1
  = Some (unexpected (error.mk Errno.EINVAL)).
Proof.
  split; [reflexivity|].
  assert (Hwf : events.wf (events.make 0))
    by (split; [unfold Int.is_size_t; cbn; lia | reflexivity]).
  destruct (do_poll_truncates_capacity 0 demo_poll (events.make 0) None
              (Script.boot [] []) Hwf) as (_ & _ & H).
  apply H; [exact script_rejects_empty_wait | reflexivity].
Defined.

(** ** The descriptor handle: who closes what *)

(** Equations between multisets of descriptors, settled by counting
    each descriptor on both sides. *)
Ltac count_descriptors :=
  let x := fresh "x" in
  unfold handles.store, fd_guard.empty, fd_guard.make in *;
  apply gmultiset_eq; intros x;
  repeat match goal with
    | H : @eq (gmultiset _) _ _ |- _ =>
        apply (f_equal (multiplicity x)) in H
    end;
  rewrite ?list_to_set_disj_cons, ?list_to_set_disj_nil in *;
  rewrite ?multiplicity_disj_union, ?multiplicity_empty in *; lia.

Section Ownership.
Import Sys.
Context {K : Type} `{!Kernel K}.

Lemma holding_comm (g1 g2 : fd_guard.t) (acc : gmultiset Z) :
  holding g1 ⊎ (holding g2 ⊎ acc) = holding g2 ⊎ (holding g1 ⊎ acc).
Proof. count_descriptors. Qed.

Lemma held_insert_fresh (s : gmap Z fd_guard.t) (a : Z) (g : fd_guard.t) :
  s !! a = None -> held (<[a := g]> s) = holding g ⊎ held s.
Proof.
  intros Hs. unfold held.
  apply (map_fold_insert_L (fun _ g acc => holding g ⊎ acc) ∅ a g s);
    [|assumption].
  intros. apply holding_comm.
Qed.

Lemma held_delete (s : gmap Z fd_guard.t) (a : Z) (g : fd_guard.t) :
  s !! a = Some g -> held s = holding g ⊎ held (delete a s).
Proof.
  intros Hs. unfold held.
  apply (map_fold_delete_L (fun _ g acc => holding g ⊎ acc) ∅ a g s);
    [|assumption].
  intros. apply holding_comm.
Qed.

Lemma held_insert_live (s : gmap Z fd_guard.t) (a : Z) (g0 g : fd_guard.t) :
  s !! a = Some g0 ->
  held (<[a := g]> s) ⊎ holding g0 = holding g ⊎ held s.
Proof.
  intros Hs. rewrite <- (insert_delete_eq s a g).
  rewrite held_insert_fresh by apply lookup_delete_eq.
  rewrite (held_delete s a g0 Hs). count_descriptors.
Qed.

Lemma holding_empty : holding fd_guard.empty = ∅.
Proof. reflexivity. Qed.

Lemma closed_app (tr1 tr2 : list syscall) :
  closed (tr1 ++ tr2) = closed tr1 ⊎ closed tr2.
Proof. unfold closed. rewrite omap_app. apply list_to_set_disj_app. Qed.

Lemma closed_close_held (g : fd_guard.t) (w : world K) :
  closed (trace (fd_guard.close_held g w)) = closed (trace w) ⊎ holding g.
Proof.
  unfold fd_guard.close_held, holding, fd_guard.to_bool.
  destruct (0 <=? fd_guard.fd_ g).
  - rewrite invoke_trace, closed_app.
    change (closed [close (fd_guard.fd_ g)])
      with (list_to_set_disj [fd_guard.fd_ g] : gmultiset Z).
    rewrite list_to_set_disj_cons, list_to_set_disj_nil.
    count_descriptors.
  - count_descriptors.
Qed.

Lemma adopts_one (n : Z) :
  list_to_set_disj (filter (fun n => 0 <= n) [n])
  = holding (fd_guard.make n).
Proof.
  unfold holding, fd_guard.to_bool, fd_guard.make. cbn [fd_guard.fd_].
  rewrite filter_cons, filter_nil.
  destruct (Z.leb_spec 0 n); destruct (decide (0 <= n)); try lia;
    rewrite ?list_to_set_disj_cons, ?list_to_set_disj_nil;
    count_descriptors.
Qed.

(** One operation moves descriptors between the four places but
    neither makes nor loses one. *)
Lemma step_accounts (o : handles.op) (s s' : handles.store)
    (w w' : world K) :
  handles.step o s w = Some (s', w') ->
  held s' ⊎ closed (trace w') ⊎ releases o s
  = held s ⊎ closed (trace w) ⊎ adopts o.
Proof.
  intros Hstep.
  destruct o as [this|this fd|this other|this other|this|this fd|this|this];
    cbn in Hstep; unfold adopts; cbn [handles.adopted releases];
    unfold handles.store in *.
  - destruct (s !! this) eqn:Et; simplify_eq.
    rewrite held_insert_fresh, holding_empty by assumption.
    rewrite filter_nil. count_descriptors.
  - destruct (s !! this) eqn:Et; simplify_eq.
    rewrite held_insert_fresh, adopts_one by assumption. count_descriptors.
  - destruct (s !! this) eqn:Et; [discriminate|].
    destruct (s !! other) as [o|] eqn:Eo; simplify_eq.
    assert (Hne : this <> other) by congruence.
    rewrite held_insert_fresh
      by (rewrite (lookup_insert_ne s other this) by congruence;
          assumption).
    pose proof (held_insert_live s other o fd_guard.empty Eo) as H.
    rewrite holding_empty in H. rewrite filter_nil.
    unfold fd_guard.exchange in *. cbn [fst snd] in *.
    change (holding {| fd_guard.fd_ := fd_guard.fd_ o |}) with (holding o).
    count_descriptors.
  - destruct (s !! this) as [g|] eqn:Et; [|discriminate].
    destruct (s !! other) as [o|] eqn:Eo; [|discriminate].
    rewrite filter_nil.
    destruct (bool_decide_reflect (this = other)) as [Heq|Hne];
      simplify_eq; [count_descriptors|].
    pose proof (held_insert_live s other o fd_guard.empty Eo) as H1.
    rewrite holding_empty in H1.
    pose proof (held_insert_live (<[other := fd_guard.empty]> s) this g
                  (fd_guard.mk (fd_guard.fd_ o))) as H2.
    rewrite (lookup_insert_ne s other this) in H2 by congruence.
    specialize (H2 Et).
    change (holding {| fd_guard.fd_ := fd_guard.fd_ o |}) with (holding o)
      in H2.
    rewrite closed_close_held. count_descriptors.
  - destruct (s !! this) as [g|] eqn:Et; simplify_eq.
    pose proof (held_insert_live s this g fd_guard.empty Et) as H.
    rewrite holding_empty in H. rewrite filter_nil.
    cbn [fd_guard.release fd_guard.exchange fst snd].
    change (holding (fd_guard.make (fd_guard.fd_ g))) with (holding g).
    count_descriptors.
  - destruct (s !! this) as [g|] eqn:Et; simplify_eq.
    pose proof (held_insert_live s this g (fd_guard.mk fd) Et) as H.
    rewrite closed_close_held, adopts_one.
    change (fd_guard.make fd) with (fd_guard.mk fd). count_descriptors.
  - destruct (s !! this) as [g|] eqn:Et; simplify_eq.
    pose proof (held_insert_live s this g (fd_guard.mk (-1)) Et) as H.
    change (holding (fd_guard.mk (-1))) with (∅ : gmultiset Z) in H.
    rewrite closed_close_held, filter_nil. count_descriptors.
  - destruct (s !! this) as [g|] eqn:Et; simplify_eq.
    rewrite (held_delete s this g Et), filter_nil.
    unfold fd_guard.destroy. rewrite closed_close_held. count_descriptors.
Qed.

Lemma run_accounts (os : list handles.op) :
  forall (s s' : handles.store) (w w' : world K),
    handles.run os s w = Some (s', w') ->
    held s' ⊎ closed (trace w') ⊎ run_releases os s w
    = held s ⊎ closed (trace w) ⊎ run_adopts os.
Proof.
  induction os as [|o os IH]; intros s s' w w' Hrun; cbn in Hrun |- *.
  - simplify_eq. reflexivity.
  - destruct (handles.step o s w) as [[s1 w1]|] eqn:Estep; [|discriminate].
    apply IH in Hrun. apply step_accounts in Estep. count_descriptors.
Qed.

(** X14.  Every descriptor a program hands to its handles is accounted
    for at any time: after any run of handle operations (constructions,
    moves, self-assignment included, releases, resets, destructions),
    the descriptors held by live handles, those closed and those handed
    back by [release()] are together exactly those that were held,
    closed or adopted before, counted with multiplicity.  So starting
    with no handle and no close made, if no descriptor is adopted
    twice, then none is closed twice and none is still held after it
    was closed or released. *)
Theorem handles_account_for_every_descriptor (os : list handles.op)
    (s s' : handles.store) (w w' : world K) :
  handles.run os s w = Some (s', w') ->
  held s' ⊎ closed (trace w') ⊎ run_releases os s w
    = held s ⊎ closed (trace w) ⊎ run_adopts os /\
  (s = ∅ -> closed (trace w) = ∅ ->
   (forall fd, (multiplicity fd (run_adopts os) <= 1)%nat) ->
   forall fd,
     (multiplicity fd (closed (trace w')) <= 1)%nat /\
     (fd ∈ closed (trace w') -> fd ∉ held s') /\
     (fd ∈ run_releases os s w ->
      (fd ∉ held s') /\ (fd ∉ closed (trace w')))).
Proof.
  intros Hrun. pose proof (run_accounts os s s' w w' Hrun) as Hacc.
  split; [exact Hacc|].
  intros -> Hclosed Hdistinct fd.
  assert (Hheld : held (∅ : handles.store) = ∅) by reflexivity.
  rewrite Hheld, Hclosed in Hacc.
  specialize (Hdistinct fd).
  assert (Hm : (multiplicity fd (held s')
                + multiplicity fd (closed (trace w'))
                + multiplicity fd (run_releases os ∅ w)
                = multiplicity fd (run_adopts os))%nat).
  { rewrite <- !multiplicity_disj_union, Hacc.
    rewrite !multiplicity_disj_union, multiplicity_empty. lia. }
  rewrite !elem_of_multiplicity. repeat split; lia.
Qed.

End Ownership.

Lemma handles_account_for_every_descriptor_witness :
  exists s' w',
    handles.run demo_ops ∅ (Script.boot [] []) = Some (s', w') /\
    closed (Sys.trace w') = {[+ 9 +]} /\
    (multiplicity 9%Z (closed (Sys.trace w')) <= 1)%nat /\
    9 ∉ held s'.
Proof.
  assert (E : handles.run demo_ops ∅ (Script.boot [] [])
              = Some (<[200 := fd_guard.empty]> ∅,
                      Sys.mk_world (Script.mk [] []) 0 [Sys.close 9]))
    by (vm_compute; reflexivity).
  destruct (handles_account_for_every_descriptor demo_ops _ _ _ _ E)
    as [_ H].
  assert (Hd : forall fd, (multiplicity fd (run_adopts demo_ops) <= 1)%nat).
  { intros fd. unfold demo_ops, run_adopts, adopts. cbn [handles.adopted].
    rewrite !filter_cons, !filter_nil.
    destruct (decide (0 <= 7)); [|lia]. destruct (decide (0 <= 9)); [|lia].
    rewrite !list_to_set_disj_cons, !list_to_set_disj_nil.
    rewrite !multiplicity_disj_union, !multiplicity_empty.
    rewrite !multiplicity_singleton.
    destruct (decide (fd = 7)); destruct (decide (fd = 9)); lia. }
  destruct (H eq_refl eq_refl Hd 9) as (Hone & Hnot & _).
  eexists _, _. split; [exact E|].
  split; [cbn; multiset_solver|].
  split; [exact Hone|]. apply Hnot. cbn. multiset_solver.
Defined.

(** ** Socket addresses *)

Section Addresses.

Lemma length_list_ascii (s : string) :
  length (list_ascii_of_string s) = String.length s.
Proof. induction s as [|c s IH]; cbn; [reflexivity | now rewrite IH]. Qed.

Lemma truncated_short (n : nat) (s : string) :
  (String.length s <= n)%nat -> truncated n s = s.
Proof.
  intros Hn. unfold truncated.
  rewrite take_ge by (rewrite length_list_ascii; exact Hn).
  apply string_of_list_ascii_of_string.
Qed.

Lemma from_pathname_storage (path : string) :
  let l := list_ascii_of_string path in
  let c := Nat.min (length l) 107 in
  unix_addr.sun_path (unix_addr.storage_ (unix_addr.from_pathname path))
    = take c l ++ replicate (108 - c) Ascii.zero /\
  unix_addr.len_ (unix_addr.from_pathname path) = Z.of_nat c + 3.
Proof.
  intros l c. unfold unix_addr.from_pathname, unix_addr.memcpy. cbn -[Z.min].
  rewrite <- (length_list_ascii path). fold l.
  replace (Z.min (Z.of_nat (length l)) (unix_addr.sizeof_sun_path - 1))
    with (Z.of_nat c) by (unfold c, unix_addr.sizeof_sun_path; lia).
  rewrite Nat2Z.id. split.
  - change (Z.to_nat unix_addr.sizeof_sun_path) with 108%nat.
    rewrite drop_replicate.
    assert (Hc : length (take c l) = c) by (rewrite length_take; unfold c; lia).
    rewrite insert_app_r_alt by lia.
    rewrite Hc, Nat.sub_diag. f_equal.
    destruct (108 - c)%nat eqn:E; [unfold c in E; lia | reflexivity].
  - unfold unix_addr.to_socklen, unix_addr.offsetof_sun_path.
    rewrite Z.mod_small; unfold c; lia.
Qed.

(** X15.  An address built by [from_pathname] is never unnamed, not
    even from the empty path; [as_pathname] and [to_string] give back
    the first 107 characters of the path without reading past the
    storage: the whole path when it has at most 107 characters, and 107
    characters of it otherwise; the storage keeps its 108 characters
    and the length stays between 3 and 110. *)
Theorem from_pathname_round_trip (path : string) :
  unix_addr.is_unnamed (unix_addr.from_pathname path) = false /\
  unix_addr.as_pathname (unix_addr.from_pathname path)
    = Some (truncated 107 path) /\
  unix_addr.to_string (unix_addr.from_pathname path)
    = Some (truncated 107 path) /\
  (if (String.length path <=? 107)%nat then truncated 107 path = path
   else String.length (truncated 107 path) = 107%nat) /\
  length (unix_addr.sun_path
            (unix_addr.as_sockaddr (unix_addr.from_pathname path))) = 108%nat /\
  3 <= unix_addr.len (unix_addr.from_pathname path) <= 110.
Proof.
  destruct (from_pathname_storage path) as [Hs Hl].
  set (l := list_ascii_of_string path) in *.
  set (c := Nat.min (length l) 107) in *.
  assert (Hc : length (take c l) = c) by (rewrite length_take; unfold c; lia).
  assert (Hun : unix_addr.is_unnamed (unix_addr.from_pathname path) = false).
  { unfold unix_addr.is_unnamed. rewrite Hl.
    change (unix_addr.to_socklen unix_addr.offsetof_sun_path) with 2.
    apply Z.leb_gt. lia. }
  assert (Hp : unix_addr.as_pathname (unix_addr.from_pathname path)
               = Some (truncated 107 path)).
  { unfold unix_addr.as_pathname. rewrite Hun, Hl.
    change (unix_addr.to_socklen unix_addr.offsetof_sun_path) with 2.
    unfold unix_addr.to_socklen.
    replace (Z.of_nat c + 3 - 2) with (Z.of_nat c + 1) by lia.
    rewrite Z.mod_small by (unfold c; lia).
    replace (0 <? Z.of_nat c + 1) with true
      by (symmetry; apply Z.ltb_lt; lia).
    replace (Z.of_nat c + 1 - 1) with (Z.of_nat c) by lia.
    rewrite Nat2Z.id, Hs.
    rewrite lookup_app_r by lia.
    rewrite Hc, Nat.sub_diag.
    destruct (108 - c)%nat eqn:E; [unfold c in E; lia|]. cbn [replicate lookup].
    cbn. unfold unix_addr.view. rewrite Nat2Z.id, Hs.
    rewrite take_app_length' by (symmetry; exact Hc).
    unfold truncated. fold l. do 2 f_equal.
    unfold c. destruct (Nat.le_gt_cases (length l) 107).
    - rewrite Nat.min_l by lia. rewrite !take_ge by lia. reflexivity.
    - rewrite Nat.min_r by lia. reflexivity. }
  repeat split.
  - exact Hun.
  - exact Hp.
  - unfold unix_addr.to_string. rewrite Hun. exact Hp.
  - destruct (Nat.leb_spec (String.length path) 107) as [E|E].
    + apply truncated_short. exact E.
    + unfold truncated. rewrite <- length_list_ascii.
      rewrite list_ascii_of_string_of_list_ascii, length_take.
      rewrite <- (length_list_ascii path) in E. lia.
  - unfold unix_addr.as_sockaddr. rewrite Hs, length_app, Hc, length_replicate.
    unfold c. lia.
  - unfold unix_addr.len. rewrite Hl. lia.
  - unfold unix_addr.len. rewrite Hl. unfold c. lia.
Qed.

Lemma testbit_255 (n : Z) : 0 <= n -> Z.testbit 255 n = (n <? 8).
Proof.
  intros Hn. change 255 with (Z.ones 8).
  apply Z.testbit_ones_nonneg; lia.
Qed.

Lemma bswap_16_spec (x n : Z) :
  0 <= n ->
  Z.testbit (socket_addr.bswap_16 x) n
  = if n <? 8 then Z.testbit x (n + 8)
    else if n <? 16 then Z.testbit x (n - 8) else false.
Proof.
  intros Hn. unfold socket_addr.bswap_16.
  rewrite Z.lor_spec, Z.land_spec, Z.shiftr_spec, Z.shiftl_spec by lia.
  rewrite testbit_255 by lia.
  destruct (Z.ltb_spec n 8) as [H8|H8].
  - rewrite (Z.testbit_neg_r _ (n - 8)) by lia.
    now rewrite andb_true_r, orb_false_r.
  - rewrite andb_false_r, Z.land_spec, testbit_255 by lia. cbn.
    destruct (Z.ltb_spec n 16) as [H16|H16];
      destruct (Z.ltb_spec (n - 8) 8); try lia;
      rewrite ?andb_true_r, ?andb_false_r; reflexivity.
Qed.

Lemma bswap_16_involutive (p : Z) :
  0 <= p < 65536 -> socket_addr.bswap_16 (socket_addr.bswap_16 p) = p.
Proof.
  intros Hp. apply Z.bits_inj'. intros n Hn.
  rewrite bswap_16_spec by lia.
  destruct (Z.ltb_spec n 8) as [H8|H8].
  - rewrite bswap_16_spec by lia.
    destruct (Z.ltb_spec (n + 8) 8); [lia|].
    destruct (Z.ltb_spec (n + 8) 16); [|lia]. f_equal. lia.
  - destruct (Z.ltb_spec n 16) as [H16|H16].
    + rewrite bswap_16_spec by lia.
      destruct (Z.ltb_spec (n - 8) 8); [|lia]. f_equal. lia.
    + symmetry. destruct (Z.eq_dec p 0) as [->|Hnz].
      * apply Z.testbit_0_l.
      * apply Z.bits_above_log2; [lia|].
        assert (Z.log2 p < 16) by (apply Z.log2_lt_pow2; lia). lia.
Qed.

(** X16.  On a host of either byte order, an address built by [ipv4],
    [ipv4_loopback], [ipv4_any], [ipv6_loopback] or [ipv6_any] with a
    16-bit port reports that port, and [family] and [len] report the
    family the storage holds and the size of that storage. *)
Theorem built_address_reads_back (host : socket_addr.byte_order)
    (addr port : Z) :
  0 <= port < 65536 ->
  Forall (fun a =>
            socket_addr.port host a = port /\
            socket_addr.family a = socket_addr.stored_family a /\
            socket_addr.len a
            = (if socket_addr.stored_family a =? socket_addr.AF_INET
               then 16 else 28))
    [socket_addr.ipv4 host addr port;
     socket_addr.ipv4_loopback host port;
     socket_addr.ipv4_any host port;
     socket_addr.ipv6_loopback host port;
     socket_addr.ipv6_any host port].
Proof.
  intros Hp.
  assert (Hrt : socket_addr.ntohs host (socket_addr.htons host port) = port).
  { destruct host; cbn; [apply bswap_16_involutive; exact Hp | reflexivity]. }
  repeat constructor; cbn; exact Hrt.
Qed.

Lemma built_address_reads_back_witness :
  socket_addr.port socket_addr.little_endian
    (socket_addr.ipv4_loopback socket_addr.little_endian 8080) = 8080 /\
  socket_addr.sin_port
    match socket_addr.ipv4_loopback socket_addr.little_endian 8080 with
    | socket_addr.v4 sa => sa
    | socket_addr.v6 _ => socket_addr.mk_sockaddr_in 0 0 0
    end = 36895.
Proof.
  assert (Hp : 0 <= 8080 < 65536) by lia.
  pose proof (built_address_reads_back socket_addr.little_endian 0 8080 Hp)
    as H.
  destruct (Forall_inv (Forall_inv_tail H)) as [H1 _].
  split; [exact H1 | vm_compute; reflexivity].
Defined.

End Addresses.

(** ** The waker, the pipe endpoints and the sockets *)

Section OtherCalls.
Import Sysx.
Context {K : Type} `{Kernel K}.
#[local] Existing Instance core_kernel.

Lemma xinvoke_trace (c : syscall) (w : world K) :
  trace (invoke c w).2 = trace w ++ [c].
Proof. unfold invoke. destruct (sys (kern w) c). reflexivity. Qed.

Lemma xinvoke_spec (c : syscall) (w : world K) :
  invoke c w
  = ((sys (kern w) c).2,
     {| kern := (sys (kern w) c).1;
        errno := if Sys.ret (answer (sys (kern w) c).2) <? 0
                 then Sys.err (answer (sys (kern w) c).2) else errno w;
        trace := trace w ++ [c] |}).
Proof. unfold invoke. destruct (sys (kern w) c). reflexivity. Qed.

Lemma lift_destroy (g : fd_guard.t) (w : world K) :
  trace (lift_world (fd_guard.destroy g) w)
  = trace w ++ closes (fd_guard.raw_fd g).
Proof.
  unfold lift_world, leave, enter, fd_guard.destroy, fd_guard.close_held,
    closes, fd_guard.raw_fd.
  destruct (0 <=? fd_guard.fd_ g); cbn; [|reflexivity].
  unfold Sys.invoke. cbn.
  destruct (Sys.sys _ _). reflexivity.
Qed.

Lemma closes_sentinel : closes (-1) = [].
Proof. reflexivity. Qed.

Lemma closes_live (fd : Z) : 0 <= fd -> closes fd = [core (Sys.close fd)].
Proof.
  intros Hfd. unfold closes.
  destruct (Z.leb_spec 0 fd); [reflexivity | lia].
Qed.

(** X17.  [waker::wake] makes one call, the write of the 64-bit value 1
    to the waker's descriptor.  A failure of that call with [EAGAIN] is
    reported as success; any other failure is returned with the code
    the call set, so the error returned is never a would-block error.
    [waker::drain] makes one read of the same descriptor. *)
Theorem wake_hides_only_would_block (self : waker_impl.t) (w : world K) :
  trace (waker_impl.wake self w).2
  = trace w ++ [write_u64 (eventfd_waker.raw_fd (waker_impl.inner_ self)) 1] /\
  trace (waker_impl.drain self w)
  = trace w ++ [read_u64 (eventfd_waker.raw_fd (waker_impl.inner_ self))] /\
  match (waker_impl.wake self w).1 with
  | value _ =>
      0 <= Sys.ret (answer (sys (kern w)
             (write_u64 (eventfd_waker.raw_fd (waker_impl.inner_ self)) 1)).2)
      \/ Sys.err (answer (sys (kern w)
             (write_u64 (eventfd_waker.raw_fd (waker_impl.inner_ self)) 1)).2)
         = Errno.EAGAIN
  | unexpected e =>
      Sys.ret (answer (sys (kern w)
             (write_u64 (eventfd_waker.raw_fd (waker_impl.inner_ self)) 1)).2)
      < 0 /\
      error.code e
      = Sys.err (answer (sys (kern w)
             (write_u64 (eventfd_waker.raw_fd (waker_impl.inner_ self)) 1)).2)
      /\ error.is_would_block e = false
  end.
Proof.
  unfold waker_impl.wake, eventfd_waker.wake, waker_impl.drain,
    eventfd_waker.drain.
  rewrite !xinvoke_spec. cbn.
  set (r := answer (sys (kern w) (write_u64 _ _)).2).
  destruct (Z.ltb_spec (Sys.ret r) 0) as [Hneg|Hpos]; cbn.
  - unfold error.is_would_block, last_os_error. cbn.
    change Errno.EWOULDBLOCK with Errno.EAGAIN.
    rewrite orb_diag.
    destruct (Z.eqb_spec (Sys.err r) Errno.EAGAIN) as [Heq|Hne]; cbn.
    + repeat split; try reflexivity. right; exact Heq.
    + repeat split; try reflexivity; [exact Hneg|].
      unfold error.is_would_block. cbn.
      change Errno.EWOULDBLOCK with Errno.EAGAIN.
      rewrite orb_diag. apply Z.eqb_neq. exact Hne.
  - repeat split; try reflexivity. left; lia.
Qed.

Lemma answers_cons (k : K) (c : syscall) (cs : list syscall) :
  answers k (c :: cs) = (sys k c).2 :: answers (sys k c).1 cs.
Proof. cbn. destruct (sys k c). reflexivity. Qed.

Lemma lift_register_spec (reg : registry.t) (sel : epoll_selector.t)
    (m : registry.memory) (fd : Z) (tok : token.t) (i : interest.t)
    (w : world K) :
  m !! registry.sel_ reg = Some sel ->
  lift_option (registry.register_fd reg fd tok i m) w
  = let c := core (Sys.epoll_ctl (epoll_selector.raw_fd sel)
                     Epoll.EPOLL_CTL_ADD fd
                     (Some (epoll_selector.make_event tok i))) in
    let r := answer (sys (kern w) c).2 in
    Some (if Sys.ret r <? 0 then unexpected (error.mk (Sys.err r))
          else value tt,
          {| kern := (sys (kern w) c).1;
             errno := if Sys.ret r <? 0 then Sys.err r else errno w;
             trace := trace w ++ [c] |}).
Proof.
  intros Hsel. unfold lift_option, registry.register_fd.
  cbn. rewrite Hsel. cbn.
  unfold epoll_selector.register_fd, epoll_selector.ctl, Sys.invoke,
    Sys.last_os_error, leave. cbn.
  unfold Sys.sys, core_kernel.
  destruct (sys (kern w) _) as [k' r]. cbn.
  destruct (Sys.ret (answer r) <? 0); reflexivity.
Qed.

(** X18.  [waker::create] opens an eventfd with [EFD_CLOEXEC] and
    [EFD_NONBLOCK] and adds it to the registry's selector for
    readability under the given token.  Its outcome is decided by the
    kernel's answers to these two calls.  When the eventfd cannot be
    opened, that call's error is returned and no other call is made.
    When the eventfd is opened and adding it fails, the error of the
    add is returned and the eventfd is closed again as the last call.
    Only when both calls succeed a waker is returned: it holds the
    eventfd, and nothing is closed. *)
Theorem waker_create_registers_or_closes (reg : registry.t)
    (sel : epoll_selector.t) (tok : token.t) (m : registry.memory)
    (w : world K) :
  m !! registry.sel_ reg = Some sel ->
  let fd := Sys.ret (answer (sys (kern w) (eventfd 0 eventfd_flags)).2) in
  let opening :=
    [eventfd 0 eventfd_flags;
     core (Sys.epoll_ctl (epoll_selector.raw_fd sel) Epoll.EPOLL_CTL_ADD fd
             (Some (epoll_selector.make_event tok interest.readable)))] in
  match answers (kern w) opening with
  | [opened; added] =>
      exists w',
        waker_impl.create reg tok m w
        = Some (if failed opened then unexpected (error_of opened)
                else if failed added then unexpected (error_of added)
                else value (waker_impl.mk
                              (eventfd_waker.mk (fd_guard.make fd))),
                w') /\
        trace w'
        = trace w ++
          (if failed opened then take 1 opening
           else if failed added then opening ++ [core (Sys.close fd)]
           else opening)
  | _ => False
  end.
Proof.
  intros Hsel fd opening. subst opening. rewrite !answers_cons. cbn [answers].
  unfold waker_impl.create, eventfd_waker.create.
  rewrite xinvoke_spec.
  change (Z.lor EFD_CLOEXEC EFD_NONBLOCK) with eventfd_flags.
  set (c1 := eventfd 0 eventfd_flags) in *.
  set (r1 := (sys (kern w) c1).2) in *.
  cbn zeta. fold fd. unfold failed at 1 3. fold fd.
  destruct (Z.ltb_spec fd 0) as [Hneg|Hpos].
  - eexists. split.
    + reflexivity.
    + reflexivity.
  - unfold eventfd_waker.raw_fd, fd_guard.raw_fd, fd_guard.make.
    cbn [eventfd_waker.fd_ fd_guard.fd_].
    rewrite (lift_register_spec _ _ _ _ _ _ _ Hsel).
    cbn zeta. cbn [kern errno trace].
    set (c2 := core _) in *.
    set (r2 := (sys (sys (kern w) c1).1 c2).2) in *.
    unfold failed, error_of.
    destruct (Z.ltb_spec (Sys.ret (answer r2)) 0) as [Hneg2|Hpos2].
    + eexists. split; [reflexivity|].
      unfold eventfd_waker.destroy. rewrite lift_destroy.
      cbn [trace eventfd_waker.fd_ fd_guard.raw_fd fd_guard.fd_].
      rewrite (closes_live fd Hpos), <- !app_assoc. reflexivity.
    + eexists. split; [reflexivity|].
      unfold eventfd_waker.destroy. rewrite lift_destroy. cbn.
      now rewrite <- !app_assoc.
Qed.

Lemma testbit_nonblock (i : Z) :
  Z.testbit O_NONBLOCK i = (i =? bit_nonblock).
Proof.
  change O_NONBLOCK with (2 ^ bit_nonblock).
  rewrite Z.pow2_bits_eqb by (unfold bit_nonblock; lia).
  apply Z.eqb_sym.
Qed.

Lemma nonblocking_flags (enable : bool) (flags : Z) :
  0 <= flags ->
  with_nonblocking enable flags
    (if enable then Z.lor flags O_NONBLOCK
     else Z.land flags (Z.lnot O_NONBLOCK)).
Proof.
  intros Hf i. destruct enable.
  - rewrite Z.lor_spec, testbit_nonblock.
    destruct (i =? bit_nonblock); [apply orb_true_r | apply orb_false_r].
  - destruct (Z.lt_ge_cases i 0) as [Hi|Hi].
    + rewrite !Z.testbit_neg_r by lia.
      destruct (Z.eqb_spec i bit_nonblock) as [->|_];
        [unfold bit_nonblock in Hi; lia | reflexivity].
    + rewrite Z.land_spec, Z.lnot_spec, testbit_nonblock by lia.
      destruct (i =? bit_nonblock); [apply andb_false_r | apply andb_true_r].
Qed.

Lemma set_nonblocking_on_spec (fd : Z) (enable : bool) (w : world K) :
  let flags := Sys.ret (answer (sys (kern w) (fcntl_getfl fd)).2) in
  if flags <? 0
  then (pipe.set_nonblocking_on fd enable w).1
       = verdict (sys (kern w) (fcntl_getfl fd)).2 /\
       trace (pipe.set_nonblocking_on fd enable w).2
       = trace w ++ [fcntl_getfl fd]
  else exists new_flags r,
      with_nonblocking enable flags new_flags /\
      trace (pipe.set_nonblocking_on fd enable w).2
      = trace w ++ [fcntl_getfl fd; fcntl_setfl fd new_flags] /\
      list.last (answers (kern w) [fcntl_getfl fd; fcntl_setfl fd new_flags])
      = Some r /\
      (pipe.set_nonblocking_on fd enable w).1 = verdict r.
Proof.
  intros flags. unfold pipe.set_nonblocking_on.
  rewrite xinvoke_spec. cbn zeta. fold flags. unfold verdict. fold flags.
  destruct (Z.ltb_spec flags 0) as [Hneg|Hpos].
  - unfold last_os_error. cbn. fold flags.
    destruct (Z.ltb_spec flags 0); [|lia]. split; reflexivity.
  - rewrite xinvoke_spec. cbn zeta. cbn [kern errno trace].
    set (nf := if enable then _ else _).
    set (r2 := (sys (sys (kern w) (fcntl_getfl fd)).1 (fcntl_setfl fd nf)).2).
    exists nf, r2.
    refine (conj (nonblocking_flags enable flags Hpos) (conj _ (conj _ _))).
    + clearbody r2.
      match goal with
      | |- context [Z.ltb ?a ?b] => destruct (Z.ltb a b)
      end; cbn [snd trace]; now rewrite <- app_assoc.
    + rewrite !answers_cons. reflexivity.
    + clearbody r2. unfold last_os_error.
      match goal with
      | |- context [Z.ltb ?a ?b] => destruct (Z.ltb a b)
      end; reflexivity.
Qed.

(** X19.  [set_nonblocking] of either pipe endpoint reads the status
    flags of its descriptor and writes them back with the bit
    [O_NONBLOCK] set to the argument and every other bit as it was
    read.  When the flags cannot be read nothing is written and the
    error of the read is returned; otherwise the outcome is that of
    the write. *)
Theorem set_nonblocking_changes_one_flag (tx : pipe_sender.t)
    (rx : pipe.receiver) (enable : bool) (w : world K) :
  Forall (fun run : Z * (void_result * world K) =>
            let flags :=
              Sys.ret (answer (sys (kern w) (fcntl_getfl run.1)).2) in
            if flags <? 0
            then run.2.1 = verdict (sys (kern w) (fcntl_getfl run.1)).2 /\
                 trace run.2.2 = trace w ++ [fcntl_getfl run.1]
            else exists new_flags r,
                with_nonblocking enable flags new_flags /\
                trace run.2.2
                = trace w ++ [fcntl_getfl run.1;
                              fcntl_setfl run.1 new_flags] /\
                list.last (answers (kern w)
                             [fcntl_getfl run.1;
                              fcntl_setfl run.1 new_flags]) = Some r /\
                run.2.1 = verdict r)
    [(pipe_sender.raw_fd tx, pipe.sender_set_nonblocking tx enable w);
     (fd_guard.raw_fd (pipe.receiver_fd_ rx),
      pipe.receiver_set_nonblocking rx enable w)].
Proof.
  repeat constructor; cbn [fst snd];
    unfold pipe.sender_set_nonblocking, pipe.receiver_set_nonblocking;
    apply set_nonblocking_on_spec.
Qed.

(** X20.  [make_pipe] makes one [pipe2] call with [O_NONBLOCK] and
    [O_CLOEXEC].  When it fails the error carries the code it set and
    no endpoint exists.  Otherwise the sender holds the second
    descriptor of the pair and the receiver the first: a write through
    the sender and a read through the receiver go to these, the read
    with the size of the buffer, and destroying the endpoints closes
    each once. *)
Theorem pipe_ends_go_to_their_endpoints (data buf : list Byte.byte)
    (w : world K) :
  match pipe.make_pipe w with
  | (unexpected e, w1) =>
      unexpected e = verdict (sys (kern w) (pipe2 pipe_flags)).2 /\
      trace w1 = trace w ++ [pipe2 pipe_flags]
  | (value (tx, rx), w1) =>
      0 <= Sys.ret (answer (sys (kern w) (pipe2 pipe_flags)).2) /\
      trace
        (pipe.receiver_destroy rx
           (pipe.sender_destroy tx
              (pipe.receiver_read rx buf
                 (pipe.sender_write tx data w1).2).2))
      = trace w ++
        [pipe2 pipe_flags;
         write (sys (kern w) (pipe2 pipe_flags)).2.(ends).2 data;
         read (sys (kern w) (pipe2 pipe_flags)).2.(ends).1
           (Z.of_nat (length buf))] ++
        closes (sys (kern w) (pipe2 pipe_flags)).2.(ends).2 ++
        closes (sys (kern w) (pipe2 pipe_flags)).2.(ends).1
  end.
Proof.
  unfold pipe.make_pipe. rewrite xinvoke_spec.
  change (Z.lor O_NONBLOCK O_CLOEXEC) with pipe_flags.
  set (r := (sys (kern w) (pipe2 pipe_flags)).2). cbn zeta.
  unfold verdict.
  destruct (Z.ltb_spec (Sys.ret (answer r)) 0) as [Hneg|Hpos].
  - unfold last_os_error. cbn.
    destruct (Z.ltb_spec (Sys.ret (answer r)) 0); [|lia].
    split; reflexivity.
  - split; [exact Hpos|].
    unfold pipe.receiver_destroy, pipe.sender_destroy.
    rewrite !lift_destroy.
    unfold pipe.receiver_read, pipe.sender_write.
    rewrite xinvoke_spec. cbn zeta.
    match goal with
    | |- context [if ?b then _ else _] => destruct b
    end; cbn [snd];
    rewrite xinvoke_spec; cbn zeta;
    match goal with
    | |- context [if ?b then _ else _] => destruct b
    end; cbn; now rewrite <- !app_assoc.
Qed.

Ltac split_call :=
  rewrite xinvoke_spec; cbn zeta; cbn [kern errno trace].

Ltac by_verdict :=
  unfold last_os_error; cbn [errno error.code_];
  first
    [ reflexivity
    | match goal with
      | |- context [Z.ltb ?a 0] =>
          destruct (Z.ltb_spec a 0); [reflexivity | lia]
      end ].

(** X21.  [tcp_listener::bind] opens a stream socket of the address's
    family with [SOCK_NONBLOCK] and [SOCK_CLOEXEC], sets [SO_REUSEADDR]
    on it, binds it and listens.  Its outcome is decided by the
    kernel's answers to [socket], [bind] and [listen], in that order;
    the answer to [setsockopt] is ignored.  The first of the three to
    fail ends the function: its error is returned, no later call of
    the four is made, and a socket that was opened is closed as the
    last call.  Only when all three succeed a listener is returned: it
    holds the socket, and nothing is closed. *)
Theorem tcp_listener_bind_closes_on_failure (addr : socket_addr.t)
    (w : world K) :
  let fd :=
    Sys.ret (answer (sys (kern w)
               (socket (socket_addr.family addr) net.stream_socket_type 0)).2)
  in
  let opening :=
    [socket (socket_addr.family addr) net.stream_socket_type 0;
     setsockopt_int fd SOL_SOCKET SO_REUSEADDR 1;
     bind fd (socket_addr_as_sockaddr addr) (socket_addr.len addr);
     listen fd SOMAXCONN] in
  match answers (kern w) opening with
  | [opened; option_set; bound; listening] =>
      (net.tcp_listener_bind addr w).1
      = (if failed opened then unexpected (error_of opened)
         else if failed bound then unexpected (error_of bound)
         else if failed listening then unexpected (error_of listening)
         else value (net.mk_tcp_listener (fd_guard.make fd))) /\
      trace (net.tcp_listener_bind addr w).2
      = trace w ++
        (if failed opened then take 1 opening
         else if failed bound then take 3 opening ++ [core (Sys.close fd)]
         else if failed listening then opening ++ [core (Sys.close fd)]
         else opening)
  | _ => False
  end.
Proof.
  intros fd opening. subst opening. rewrite !answers_cons. cbn [answers].
  unfold net.tcp_listener_bind.
  split_call.
  set (c1 := socket _ _ _) in *.
  set (r1 := (sys (kern w) c1).2) in *. fold fd.
  unfold failed at 1 4. fold fd.
  destruct (Z.ltb_spec fd 0) as [Hneg|Hpos].
  - cbn [fst snd trace take]. split; [|reflexivity].
    unfold error_of. by_verdict.
  - split_call. set (c2 := setsockopt_int _ _ _ _) in *.
    split_call. set (c3 := bind _ _ _) in *.
    set (k2 := (sys (sys (kern w) c1).1 c2).1) in *.
    set (r3 := (sys k2 c3).2) in *.
    unfold failed at 1 3.
    destruct (Z.ltb_spec (Sys.ret (answer r3)) 0) as [Hneg3|Hpos3].
    + cbn [fst snd]. split.
      * unfold error_of. by_verdict.
      * rewrite lift_destroy. cbn [trace fd_guard.raw_fd fd_guard.make
          fd_guard.fd_ take].
        rewrite (closes_live fd Hpos), <- !app_assoc. reflexivity.
    + split_call. set (c4 := listen _ _) in *.
      set (r4 := (sys (sys k2 c3).1 c4).2) in *.
      unfold failed.
      destruct (Z.ltb_spec (Sys.ret (answer r4)) 0) as [Hneg4|Hpos4].
      * cbn [fst snd]. split.
        -- unfold error_of. by_verdict.
        -- rewrite lift_destroy. cbn [trace fd_guard.raw_fd fd_guard.make
             fd_guard.fd_].
           rewrite (closes_live fd Hpos), <- !app_assoc. reflexivity.
      * cbn [fst snd fd_guard.move fd_guard.exchange fd_guard.make].
        cbn [fst snd]. split; [reflexivity|].
        rewrite lift_destroy. cbn. now rewrite <- !app_assoc.
Qed.

(** X22.  [unix_listener::bind] opens a stream socket of family
    [AF_UNIX] with [SOCK_NONBLOCK] and [SOCK_CLOEXEC], binds it with
    the address's storage and length, and listens.  Its outcome is
    decided by the kernel's answers to the three calls, in that order.
    The first to fail ends the function: its error is returned, no
    later call of the three is made, and a socket that was opened is
    closed as the last call.  Only when all three succeed a listener
    is returned: it holds the socket, and nothing is closed. *)
Theorem unix_listener_bind_closes_on_failure (addr : unix_addr.t)
    (w : world K) :
  let fd :=
    Sys.ret (answer (sys (kern w)
               (socket unix_addr.AF_UNIX net.stream_socket_type 0)).2) in
  let opening :=
    [socket unix_addr.AF_UNIX net.stream_socket_type 0;
     bind fd (sockaddr_of_un (unix_addr.storage_ addr)) (unix_addr.len_ addr);
     listen fd SOMAXCONN] in
  match answers (kern w) opening with
  | [opened; bound; listening] =>
      (net.unix_listener_bind addr w).1
      = (if failed opened then unexpected (error_of opened)
         else if failed bound then unexpected (error_of bound)
         else if failed listening then unexpected (error_of listening)
         else value (unix_listener.mk (fd_guard.make fd))) /\
      trace (net.unix_listener_bind addr w).2
      = trace w ++
        (if failed opened then take 1 opening
         else if failed bound then take 2 opening ++ [core (Sys.close fd)]
         else if failed listening then opening ++ [core (Sys.close fd)]
         else opening)
  | _ => False
  end.
Proof.
  intros fd opening. subst opening. rewrite !answers_cons. cbn [answers].
  unfold net.unix_listener_bind.
  split_call.
  set (c1 := socket _ _ _) in *.
  set (r1 := (sys (kern w) c1).2) in *. fold fd.
  unfold failed at 1 4. fold fd.
  destruct (Z.ltb_spec fd 0) as [Hneg|Hpos].
  - cbn [fst snd trace take]. split; [|reflexivity].
    unfold error_of. by_verdict.
  - split_call.
    unfold unix_addr_as_sockaddr, unix_addr.as_sockaddr, unix_addr.len.
    set (c2 := bind _ _ _) in *.
    set (r2 := (sys (sys (kern w) c1).1 c2).2) in *.
    unfold failed at 1 3.
    destruct (Z.ltb_spec (Sys.ret (answer r2)) 0) as [Hneg2|Hpos2].
    + cbn [fst snd]. split.
      * unfold error_of. by_verdict.
      * rewrite lift_destroy. cbn [trace fd_guard.raw_fd fd_guard.make
          fd_guard.fd_ take].
        rewrite (closes_live fd Hpos), <- !app_assoc. reflexivity.
    + split_call. set (c3 := listen _ _) in *.
      set (r3 := (sys (sys (sys (kern w) c1).1 c2).1 c3).2) in *.
      unfold failed.
      destruct (Z.ltb_spec (Sys.ret (answer r3)) 0) as [Hneg3|Hpos3].
      * cbn [fst snd]. split.
        -- unfold error_of. by_verdict.
        -- rewrite lift_destroy. cbn [trace fd_guard.raw_fd fd_guard.make
             fd_guard.fd_].
           rewrite (closes_live fd Hpos), <- !app_assoc. reflexivity.
      * cbn [fst snd fd_guard.move fd_guard.exchange fd_guard.make].
        cbn [fst snd]. split; [reflexivity|].
        rewrite lift_destroy. cbn. now rewrite <- !app_assoc.
Qed.

(** X23.  [tcp_stream::connect] opens a stream socket of the address's
    family with [SOCK_NONBLOCK] and [SOCK_CLOEXEC] and connects it.  A
    [connect] that fails with [EINPROGRESS] counts as success: the
    stream holds the socket and nothing is closed.  When [socket]
    fails, or [connect] fails with another code, the error carries
    that code and a socket that was opened is closed as the last
    call. *)
Theorem tcp_stream_connect_keeps_socket_in_progress (addr : socket_addr.t)
    (w : world K) :
  let fd :=
    Sys.ret (answer (sys (kern w)
               (socket (socket_addr.family addr) net.stream_socket_type 0)).2)
  in
  let opening :=
    [socket (socket_addr.family addr) net.stream_socket_type 0;
     connect fd (socket_addr_as_sockaddr addr) (socket_addr.len addr)] in
  match (net.tcp_stream_connect addr w).1 with
  | value s =>
      0 <= fd /\
      fd_guard.raw_fd (net.tcp_stream_fd_ s) = fd /\
      trace (net.tcp_stream_connect addr w).2 = trace w ++ opening /\
      exists r,
        list.last (answers (kern w) opening) = Some r /\
        (0 <= Sys.ret (answer r) \/ Sys.err (answer r) = EINPROGRESS)
  | unexpected e =>
      exists n r,
        (n = 1%nat /\ fd < 0 \/
         n = 2%nat /\ 0 <= fd /\ Sys.err (answer r) <> EINPROGRESS) /\
        trace (net.tcp_stream_connect addr w).2
        = trace w ++ take n opening ++ closes fd /\
        list.last (answers (kern w) (take n opening)) = Some r /\
        Sys.ret (answer r) < 0 /\
        e = error.mk (Sys.err (answer r))
  end.
Proof.
  intros fd opening. unfold net.tcp_stream_connect.
  split_call.
  set (c1 := socket _ _ _) in *.
  set (r1 := (sys (kern w) c1).2) in *. fold fd.
  destruct (Z.ltb_spec fd 0) as [Hneg|Hpos].
  - exists 1%nat, r1. cbn [fst snd trace take].
    refine (conj _ (conj _ (conj _ (conj _ _)))).
    + left. split; [reflexivity | exact Hneg].
    + unfold closes. destruct (Z.leb_spec 0 fd); [lia | reflexivity].
    + subst opening. cbn [take]. rewrite answers_cons. reflexivity.
    + exact Hneg.
    + by_verdict.
  - split_call. set (c2 := connect _ _ _) in *.
    set (r2 := (sys (sys (kern w) c1).1 c2).2).
    assert (Hans : list.last (answers (kern w) opening) = Some r2).
    { subst opening. rewrite !answers_cons. reflexivity. }
    destruct (Z.ltb_spec (Sys.ret (answer r2)) 0) as [Hneg2|Hpos2].
    + unfold net.is_in_progress, last_os_error. cbn [errno error.code_].
      destruct (Z.eqb_spec (Sys.err (answer r2)) EINPROGRESS) as [Hin|Hout];
        cbn [negb fst snd fd_guard.move fd_guard.exchange fd_guard.make].
      * refine (conj Hpos (conj _ (conj _ _))).
        -- reflexivity.
        -- rewrite lift_destroy. cbn. now rewrite <- !app_assoc.
        -- exists r2. split; [exact Hans | right; exact Hin].
      * exists 2%nat, r2.
        refine (conj _ (conj _ (conj _ (conj _ _)))).
        -- right. repeat split; [exact Hpos | exact Hout].
        -- rewrite lift_destroy. cbn [trace fd_guard.raw_fd fd_guard.make
             fd_guard.fd_]. subst opening. cbn [take].
           now rewrite <- !app_assoc.
        -- exact Hans.
        -- exact Hneg2.
        -- reflexivity.
    + cbn [fst snd fd_guard.move fd_guard.exchange fd_guard.make].
      refine (conj Hpos (conj _ (conj _ _))).
      * reflexivity.
      * rewrite lift_destroy. cbn. now rewrite <- !app_assoc.
      * exists r2. split; [exact Hans | left; exact Hpos2].
Qed.

End OtherCalls.

Lemma waker_create_registers_or_closes_witness :
  demo_memory !! registry.sel_ demo_registry = Some demo_selector /\
  exists w',
    waker_impl.create demo_registry (token.make 65535) demo_memory
      (Replay.boot [Replay.returns 7; Replay.fails Errno.ENOENT])
    = Some (unexpected (error.mk Errno.ENOENT), w') /\
    Sysx.trace w'
    = [Sysx.eventfd 0 eventfd_flags;
       Sysx.core
         (Sys.epoll_ctl 3 Epoll.EPOLL_CTL_ADD 7
            (Some (epoll_selector.make_event (token.make 65535)
                     interest.readable)));
       Sysx.core (Sys.close 7)].
Proof.
  assert (Hsel : demo_memory !! registry.sel_ demo_registry
                 = Some demo_selector) by (vm_compute; reflexivity).
  split; [exact Hsel|].
  exact (waker_create_registers_or_closes demo_registry demo_selector
           (token.make 65535) demo_memory
           (Replay.boot [Replay.returns 7; Replay.fails Errno.ENOENT])
           Hsel).
Defined.

(** ** Runs on the replaying kernel *)

Example wake_on_a_full_counter :
  (waker_impl.wake (waker_impl.mk (eventfd_waker.mk (fd_guard.make 7)))
     (Replay.boot [Replay.fails Errno.EAGAIN])).1 = value tt.
Proof. vm_compute. reflexivity. Qed.

Example read_from_an_empty_pipe :
  (pipe.receiver_read (pipe.mk_receiver (fd_guard.make 5))
     (replicate 4 Byte.x00)
     (Replay.boot [Replay.fails Errno.EAGAIN])).1.1
  = unexpected (error.mk Errno.EAGAIN).
Proof. vm_compute. reflexivity. Qed.

Example read_after_the_sender_closed :
  (pipe.receiver_read (pipe.mk_receiver (fd_guard.make 5))
     (replicate 4 Byte.x00)
     (Replay.boot [Replay.returns 0])).1.1 = value 0.
Proof. vm_compute. reflexivity. Qed.

Example pipe_ends_of_a_pair :
  match (pipe.make_pipe (Replay.boot [Replay.pipe_ends 5 6])).1 with
  | value (tx, rx) =>
      pipe_sender.raw_fd tx = 6 /\
      fd_guard.raw_fd (pipe.receiver_fd_ rx) = 5
  | unexpected _ => False
  end.
Proof. vm_compute. split; reflexivity. Qed.

Example bind_on_an_address_in_use :
  let run :=
    net.tcp_listener_bind
      (socket_addr.ipv4_loopback socket_addr.little_endian 8080)
      (Replay.boot [Replay.returns 5; Replay.fails 92; Replay.fails 98]) in
  run.1 = unexpected (error.mk 98) /\
  list.last (Sysx.trace run.2) = Some (Sysx.core (Sys.close 5)) /\
  length (Sysx.trace run.2) = 4%nat.
Proof. vm_compute. repeat split; reflexivity. Qed.

Example unnamed_and_empty_addresses :
  unix_addr.to_string unix_addr.default = Some "(unnamed)"%string /\
  unix_addr.to_string (unix_addr.from_pathname EmptyString)
  = Some EmptyString /\
  unix_addr.len (unix_addr.from_pathname "/tmp/tio.sock") = 16.
Proof. vm_compute. repeat split; reflexivity. Qed.
